(** * Rotary positional embeddings: [module/rope_simple.py]

    A shallow embedding of [apply_rope] and of the few [jax.numpy]
    operations it is written with, over exact real arithmetic.

    An array is a dense row-major buffer together with its shape and its
    element type.  The element values are idealised as real numbers (the
    rounding of the floating-point element types is not modelled); the
    element type itself is tracked, with the promotion rules of the array
    library, because the result type of [apply_rope] depends on them.

    The function is written as in the source, one library call per line, in
    a result monad: the [assert] on the last dimension is the function's
    own failure, the other failures are those of the runtime and of the
    library (indexing a rank-0 array, incompatible shapes in an elementwise
    operation, a reshape whose free axis cannot be inferred).  The power
    [base ** power] is [Rpower], which is the real power for a positive
    base.

    Around this core: [apply_rope_call] takes [base] as the Python number
    it is, which the library may refuse; [timescale_float32] gives the
    timescale as single precision holds it; [jnp.typed_add] and
    [jnp.typed_negative] are the sums and opposites a caller computes on
    integer, boolean or floating-point arrays; [apply_rope_refs] follows
    the buffers of the arrays. *)

From Stdlib Require Import List Arith Lia Bool.
From Stdlib Require Import Reals Lra.
Import ListNotations.

Open Scope R_scope.

(** ** Errors and the result monad *)

(** [AssertionError] is the failure of the function's own [assert];
    the other three are raised by the runtime or the array library:
    [IndexError] by [x.shape[-1]] on a rank-0 array, [BroadcastError] by an
    elementwise operation on incompatible shapes (and by [stack] on arrays
    of different shapes), [ReshapeError] by a [reshape] whose [-1] axis
    cannot be inferred, [OverflowError] by a Python integer operand that
    does not fit the 32-bit integer type, [DTypeError] by an operation
    that does not accept the element type of its operand. *)
Inductive error : Type :=
| AssertionError
| IndexError
| BroadcastError
| ReshapeError
| OverflowError
| DTypeError.

Inductive result (A : Type) : Type :=
| Ok (a : A)
| Err (e : error).

Arguments Ok {A} a.
Arguments Err {A} e.

Definition bind {A B : Type} (m : result A) (k : A -> result B) : result B :=
  match m with
  | Ok a => k a
  | Err e => Err e
  end.

Notation "x <- m ;; k" := (bind m (fun x => k))
  (at level 61, m at next level, right associativity).
Notation "m ;;; k" := (bind m (fun _ => k))
  (at level 61, right associativity).

(** Python's [assert cond]. *)
Definition assert_ (cond : bool) : result unit :=
  if cond then Ok tt else Err AssertionError.

(** ** Element types *)

(** The real element types of the array library that are at most 32 bits
    wide (its default configuration has no 64-bit types). *)
Inductive DType : Type :=
| bool_
| int8
| int16
| int32
| bfloat16
| float16
| float32.

Definition DType_eqb (a b : DType) : bool :=
  match a, b with
  | bool_, bool_ | int8, int8 | int16, int16 | int32, int32
  | bfloat16, bfloat16 | float16, float16 | float32, float32 => true
  | _, _ => false
  end.

Definition is_float (d : DType) : bool :=
  match d with
  | bfloat16 | float16 | float32 => true
  | _ => false
  end.

(** Position of an integer type in the chain bool < int8 < int16 < int32. *)
Definition int_rank (d : DType) : nat :=
  match d with
  | bool_ => 0
  | int8 => 1
  | int16 => 2
  | _ => 3
  end.

(** The library's promotion lattice: the integer chain lies below both
    16-bit floats, which are incomparable and lie below [float32]. *)
Definition promote_types (a b : DType) : DType :=
  match is_float a, is_float b with
  | false, false => if (int_rank a <=? int_rank b)%nat then b else a
  | true, false => a
  | false, true => b
  | true, true => if DType_eqb a b then a else float32
  end.

(** Result type of an operation that always computes in floating point
    (true division, [cos], [sin]): floats are kept, integers become the
    default float type. *)
Definition to_inexact (d : DType) : DType :=
  if is_float d then d else float32.

(** ** Arrays *)

Record Array : Type := mkArray {
  dtype : DType;
  shape : list nat;
  data : list R
}.

(** Number of elements of an array of a given shape. *)
Fixpoint size (sh : list nat) : nat :=
  match sh with
  | [] => 1
  | n :: sh' => n * size sh'
  end.

(** The buffer holds exactly the elements of the shape. *)
Definition wf (a : Array) : Prop :=
  length (data a) = size (shape a).

(** Row-major offset of a multi-index. *)
Fixpoint ravel (sh idx : list nat) : nat :=
  match sh, idx with
  | n :: sh', i :: idx' => i * size sh' + ravel sh' idx'
  | _, _ => 0
  end.

(** A multi-index addresses an element of the shape. *)
Fixpoint in_range (sh idx : list nat) : Prop :=
  match sh, idx with
  | [], [] => True
  | n :: sh', i :: idx' => (i < n)%nat /\ in_range sh' idx'
  | _, _ => False
  end.

(** [a[idx]]. *)
Definition get (a : Array) (idx : list nat) : R :=
  nth (ravel (shape a) idx) (data a) 0.

(** The row-major buffer whose element at multi-index [idx] is [f idx]. *)
Fixpoint tabulate (sh : list nat) (f : list nat -> R) : list R :=
  match sh with
  | [] => [f []]
  | n :: sh' =>
      flat_map (fun i => tabulate sh' (fun idx => f (i :: idx))) (seq 0 n)
  end.

Definition build (dt : DType) (sh : list nat) (f : list nat -> R) : Array :=
  mkArray dt sh (tabulate sh f).

(** ** Single-precision values *)

(** The largest integer not above [r]. *)
Definition Zfloor (r : R) : Z := (up r - 1)%Z.

Module float32.

(** The integer nearest to [r], the even one at a tie. *)
Definition Znearest (r : R) : Z :=
  let f := Zfloor r in
  if Rlt_dec (r - IZR f) (/ 2) then f
  else if Rlt_dec (/ 2) (r - IZR f) then (f + 1)%Z
  else if Z.even f then f else (f + 1)%Z.

(** The exponent [e] of the binade of [v], [2^e <= |v| < 2^(e+1)]; the
    subnormal numbers share the exponent -126. *)
Definition exponent (v : R) : Z :=
  Z.max (Zfloor (ln (Rabs v) / ln 2)) (-126).

(** The distance between the single-precision numbers around [v], which
    have 24 significant bits. *)
Definition ulp (v : R) : R := powerRZ 2 (exponent v - 23).

(** Rounding to the nearest single-precision number.  Values beyond the
    largest finite number, which round to an infinity, are not modelled. *)
Definition round (v : R) : R :=
  if Req_EM_T v 0 then 0 else IZR (Znearest (v / ulp v)) * ulp v.

End float32.

(** ** Python numbers *)

(** The [base] argument is a Python number: an integer (as its annotation
    and its default say) or a float. *)
Inductive PyNumber : Type :=
| PyInt (n : Z)
| PyFloat (v : R).

(** ** The operations of the array library used by [apply_rope] *)

Module jnp.

(** [jnp.arange(lo, hi)] with integer bounds. *)
Definition arange (lo hi : nat) : Array :=
  mkArray int32 [hi - lo]%nat (map INR (seq lo (hi - lo))).

(** Elementwise unary operation, with the element type of the result. *)
Definition map_array (dt : DType) (f : R -> R) (a : Array) : Array :=
  mkArray dt (shape a) (map f (data a)).

(** [c * a] for a Python integer [c]: a Python scalar is weakly typed and
    leaves the element type of the array alone. *)
Definition scalar_multiply (c : R) (a : Array) : Array :=
  map_array (dtype a) (fun v => c * v) a.

(** [a / c] for a Python integer [c]: true division, always inexact. *)
Definition true_divide_scalar (a : Array) (c : R) : Array :=
  map_array (to_inexact (dtype a)) (fun v => v / c) a.

(** [base ** a] for a floating-point exponent array and the value of a
    positive base that the library has accepted (see [weak_scalar]
    below). *)
Definition scalar_power (base : R) (a : Array) : Array :=
  map_array (dtype a) (fun v => Rpower base v) a.

Definition cos (a : Array) : Array := map_array (to_inexact (dtype a)) Rtrigo_def.cos a.
Definition sin (a : Array) : Array := map_array (to_inexact (dtype a)) Rtrigo_def.sin a.


(** [jnp.full(sh, v)] and [jnp.zeros(sh)]. *)
Definition full (dt : DType) (sh : list nat) (v : R) : Array :=
  mkArray dt sh (repeat v (size sh)).
Definition zeros (sh : list nat) : Array := full float32 sh 0.

(** A Python number as an operand of an array operation.  An integer is
    converted to the 32-bit integer type and must fit in it; a float is
    taken as it is. *)
Definition weak_scalar (c : PyNumber) : result R :=
  match c with
  | PyInt n =>
      if ((- 2 ^ 31 <=? n) && (n <? 2 ^ 31))%Z then Ok (IZR n)
      else Err OverflowError
  | PyFloat v => Ok v
  end.

(** *** Broadcasting *)

(** Shapes are aligned on their last axis; two axis lengths are compatible
    when they are equal or one of them is 1. *)
Fixpoint broadcast_rev (r1 r2 : list nat) : option (list nat) :=
  match r1, r2 with
  | [], _ => Some r2
  | _, [] => Some r1
  | a :: r1', b :: r2' =>
      match broadcast_rev r1' r2' with
      | None => None
      | Some r =>
          if (a =? b)%nat then Some (a :: r)
          else if (a =? 1)%nat then Some (b :: r)
          else if (b =? 1)%nat then Some (a :: r)
          else None
      end
  end.

Definition broadcast_shapes (s1 s2 : list nat) : option (list nat) :=
  option_map (@rev nat) (broadcast_rev (rev s1) (rev s2)).

(** The index of the element of an operand of shape [s] that is used at
    index [idx] of the broadcast result: leading axes the operand does not
    have are dropped and the index along an axis of length 1 is 0. *)
Definition broadcast_index (s idx : list nat) : list nat :=
  map (fun di => if (fst di =? 1)%nat then 0%nat else snd di)
      (combine s (skipn (length idx - length s) idx)).

(** Elementwise binary operation with broadcasting and type promotion,
    the elements combined exactly: this is the operation of the library
    when the promoted element type is a float, as it is at every use in
    [apply_rope] (for integers and booleans see [typed_add] below). *)
Definition binop (op : R -> R -> R) (a b : Array) : result Array :=
  match broadcast_shapes (shape a) (shape b) with
  | None => Err BroadcastError
  | Some sh =>
      Ok (build (promote_types (dtype a) (dtype b)) sh
            (fun idx => op (get a (broadcast_index (shape a) idx))
                           (get b (broadcast_index (shape b) idx))))
  end.

Definition add : Array -> Array -> result Array := binop Rplus.
Definition subtract : Array -> Array -> result Array := binop Rminus.
Definition multiply : Array -> Array -> result Array := binop Rmult.

(** *** The values an element type holds *)

(** The value an integer of [w] bits holds after an overflow: [v] modulo
    [2^w], taken in [-2^(w-1), 2^(w-1)). *)
Definition wrap (w : Z) (v : R) : R :=
  v - IZR (2 ^ w) * IZR (Zfloor ((v + IZR (2 ^ (w - 1))) / IZR (2 ^ w))).

(** The value stored in an array of element type [d] for the exact result
    [v] of an operation: an integer wraps around, a boolean is true when
    [v] is not 0, a float holds [v] (its rounding is not modelled). *)
Definition store (d : DType) (v : R) : R :=
  match d with
  | bool_ => if Req_EM_T v 0 then 0 else 1
  | int8 => wrap 8 v
  | int16 => wrap 16 v
  | int32 => wrap 32 v
  | bfloat16 | float16 | float32 => v
  end.

(** [v] is held as it is: no wrap-around, no collapse to a boolean. *)
Definition representable (d : DType) (v : R) : Prop := store d v = v.

(** [a + b] on arrays as a caller computes it, in the promoted element
    type of the operands. *)
Definition typed_add (a b : Array) : result Array :=
  match broadcast_shapes (shape a) (shape b) with
  | None => Err BroadcastError
  | Some sh =>
      let d := promote_types (dtype a) (dtype b) in
      Ok (build d sh
            (fun idx => store d (get a (broadcast_index (shape a) idx)
                                 + get b (broadcast_index (shape b) idx))))
  end.

(** [-a] as a caller computes it; booleans are not negated. *)
Definition typed_negative (a : Array) : result Array :=
  match dtype a with
  | bool_ => Err DTypeError
  | d => Ok (map_array d (fun v => store d (- v)) a)
  end.

(** *** Indexing *)

(** [a.shape[-1]]. *)
Definition shape_last (a : Array) : result nat :=
  match rev (shape a) with
  | [] => Err IndexError
  | d :: _ => Ok d
  end.

(** [a[..., None]]: a new last axis of length 1 over the same buffer. *)
Definition newaxis_last (a : Array) : Array :=
  mkArray (dtype a) (shape a ++ [1%nat]) (data a).

(** [a[..., None, :]]: a new axis of length 1 before the last one. *)
Definition newaxis_penultimate (a : Array) : result Array :=
  match rev (shape a) with
  | [] => Err IndexError
  | d :: r => Ok (mkArray (dtype a) (rev r ++ [1%nat; d]) (data a))
  end.

(** [a[..., start::step]]: every [step]-th element of the last axis from
    [start] on. *)
Definition slice_last (start step : nat) (a : Array) : result Array :=
  match rev (shape a) with
  | [] => Err IndexError
  | d :: r =>
      Ok (build (dtype a) (rev r ++ [((d - start + (step - 1)) / step)%nat])
            (fun idx =>
               get a (removelast idx ++ [(start + step * last idx 0)%nat])))
  end.

(** *** Stacking and reshaping *)

Fixpoint shape_eqb (s1 s2 : list nat) : bool :=
  match s1, s2 with
  | [], [] => true
  | a :: s1', b :: s2' => (a =? b)%nat && shape_eqb s1' s2'
  | _, _ => false
  end.

(** [jnp.stack([a, b], axis=-1)]: the two arrays must have the same shape;
    the result has a new last axis of length 2. *)
Definition stack_last (a b : Array) : result Array :=
  if shape_eqb (shape a) (shape b) then
    Ok (build (promote_types (dtype a) (dtype b)) (shape a ++ [2%nat])
          (fun idx =>
             if (last idx 0 =? 0)%nat then get a (removelast idx)
             else get b (removelast idx)))
  else Err BroadcastError.

(** [a.reshape] to the axes [lead] followed by [-1]: the buffer is kept; the length of the last
    axis is inferred as the number of elements divided by the product of
    the given axes, which must be a nonzero divisor of it. *)
Definition reshape_infer_last (lead : list nat) (a : Array) : result Array :=
  let n := size (shape a) in
  let m := size lead in
  if (m =? 0)%nat then Err ReshapeError
  else if (n mod m =? 0)%nat then
    Ok (mkArray (dtype a) (lead ++ [(n / m)%nat]) (data a))
  else Err ReshapeError.

End jnp.

(** ** [apply_rope] *)

Definition _DEFAULT_BASE : R := 10000.

(** [power = -2 * jnp.arange(0, head_dim // 2) / head_dim] *)
Definition rope_power (head_dim : nat) : Array :=
  jnp.true_divide_scalar
    (jnp.scalar_multiply (-2) (jnp.arange 0 (head_dim / 2)))
    (INR head_dim).

(** [timescale = base**power] *)
Definition rope_timescale (base : R) (head_dim : nat) : Array :=
  jnp.scalar_power base (rope_power head_dim).

(** [freq = position[..., None] * timescale] *)
Definition rope_freq (position : Array) (base : R) (head_dim : nat)
  : result Array :=
  jnp.multiply (jnp.newaxis_last position) (rope_timescale base head_dim).

(** The body of the function, statement by statement.  The two products
    and the difference (or sum) of each component of the rotation are
    evaluated from left to right, the even component first. *)
Definition apply_rope (x position : Array) (base : R) : result Array :=
  (* head_dim = x.shape[-1] *)
  head_dim <- jnp.shape_last x ;;
  (* assert head_dim % 2 == 0 *)
  assert_ (head_dim mod 2 =? 0)%nat ;;;
  (* power, timescale, freq = position[..., None] * timescale *)
  freq <- rope_freq position base head_dim ;;
  (* freq = freq[..., None, :] *)
  freq <- jnp.newaxis_penultimate freq ;;
  let cos_freq := jnp.cos freq in
  let sin_freq := jnp.sin freq in
  (* x_even = x[..., ::2]; x_odd = x[..., 1::2] *)
  x_even <- jnp.slice_last 0 2 x ;;
  x_odd <- jnp.slice_last 1 2 x ;;
  (* x_even * cos_freq - x_odd * sin_freq *)
  ec <- jnp.multiply x_even cos_freq ;;
  os <- jnp.multiply x_odd sin_freq ;;
  new_even <- jnp.subtract ec os ;;
  (* x_odd * cos_freq + x_even * sin_freq *)
  oc <- jnp.multiply x_odd cos_freq ;;
  es <- jnp.multiply x_even sin_freq ;;
  new_odd <- jnp.add oc es ;;
  (* stacked = jnp.stack([x_even, x_odd], axis=-1) *)
  stacked <- jnp.stack_last new_even new_odd ;;
  (* stacked.reshape of stacked.shape[:-2] followed by -1 *)
  jnp.reshape_infer_last
    (firstn (length (shape stacked) - 2) (shape stacked)) stacked.

(** [power] and [timescale] as the single-precision arrays hold them, each
    operation rounded to nearest: the integers [-2k] and [head_dim] are
    converted and their quotient is rounded; the base is converted and the
    power is rounded. *)
Definition power_float32 (head_dim k : nat) : R :=
  float32.round
    (float32.round (-2 * INR k) / float32.round (INR head_dim)).

Definition timescale_float32 (base : R) (head_dim k : nat) : R :=
  float32.round (Rpower (float32.round base) (power_float32 head_dim k)).

(** The call [apply_rope(x, position, base)] with [base] as the Python
    number it is: [base] becomes an operand of the library at
    [base**power], after the assertion.  [apply_rope] above is the function
    on the value of a base that the library accepts. *)
Definition apply_rope_call (x position : Array) (base : PyNumber)
  : result Array :=
  head_dim <- jnp.shape_last x ;;
  assert_ (head_dim mod 2 =? 0)%nat ;;;
  b <- jnp.weak_scalar base ;;
  apply_rope x position b.

(** [timescale = base**power] for the Python number [base]. *)
Definition rope_timescale_call (base : PyNumber) (head_dim : nat)
  : result Array :=
  b <- jnp.weak_scalar base ;;
  Ok (rope_timescale b head_dim).

(** [base: int = _DEFAULT_BASE] *)
Definition default_base : PyNumber := PyInt 10000.

(** ** Arrays and their buffers *)

(** An array object: the buffer it reads, named by a number, and its
    value.  Two array objects alias each other when they read the same
    buffer. *)
Record Ref : Type := mkRef {
  buffer : nat;
  value : Array
}.

Module alloc.

(** A computation that may allocate buffers and may fail: it is given the
    first unused buffer name and returns the next one with its result. *)
Definition M (A : Type) : Type := nat -> result (A * nat).

Definition bind {A B : Type} (m : M A) (k : A -> M B) : M B :=
  fun next =>
    match m next with
    | Ok (a, next') => k a next'
    | Err e => Err e
    end.

(** A step that allocates nothing. *)
Definition lift {A : Type} (m : result A) : M A :=
  fun next =>
    match m with
    | Ok a => Ok (a, next)
    | Err e => Err e
    end.

(** The result of an operation that computes elements is held by a new
    buffer. *)
Definition fresh (m : result Array) : M Ref :=
  fun next =>
    match m with
    | Ok a => Ok (mkRef next a, S next)
    | Err e => Err e
    end.

(** The result of an operation that only indexes or reshapes may read the
    buffer of its operand (it does for a view; this is the most sharing
    the library can introduce). *)
Definition view (r : Ref) (m : result Array) : M Ref :=
  fun next =>
    match m with
    | Ok a => Ok (mkRef (buffer r) a, next)
    | Err e => Err e
    end.

End alloc.

Notation "x <~ m ;; k" := (alloc.bind m (fun x => k))
  (at level 61, m at next level, right associativity).

(** [apply_rope] on array objects, statement by statement as above, with
    the buffer of every intermediate array. *)
Definition apply_rope_refs (x position : Ref) (base : R) : alloc.M Ref :=
  head_dim <~ alloc.lift (jnp.shape_last (value x)) ;;
  checked <~ alloc.lift (assert_ (head_dim mod 2 =? 0)%nat) ;;
  indices <~ alloc.fresh (Ok (jnp.arange 0 (head_dim / 2))) ;;
  doubled <~ alloc.fresh (Ok (jnp.scalar_multiply (-2) (value indices))) ;;
  power <~ alloc.fresh
    (Ok (jnp.true_divide_scalar (value doubled) (INR head_dim))) ;;
  timescale <~ alloc.fresh (Ok (jnp.scalar_power base (value power))) ;;
  position1 <~ alloc.view position (Ok (jnp.newaxis_last (value position))) ;;
  freq <~ alloc.fresh (jnp.multiply (value position1) (value timescale)) ;;
  freq <~ alloc.view freq (jnp.newaxis_penultimate (value freq)) ;;
  cos_freq <~ alloc.fresh (Ok (jnp.cos (value freq))) ;;
  sin_freq <~ alloc.fresh (Ok (jnp.sin (value freq))) ;;
  x_even <~ alloc.view x (jnp.slice_last 0 2 (value x)) ;;
  x_odd <~ alloc.view x (jnp.slice_last 1 2 (value x)) ;;
  ec <~ alloc.fresh (jnp.multiply (value x_even) (value cos_freq)) ;;
  os <~ alloc.fresh (jnp.multiply (value x_odd) (value sin_freq)) ;;
  new_even <~ alloc.fresh (jnp.subtract (value ec) (value os)) ;;
  oc <~ alloc.fresh (jnp.multiply (value x_odd) (value cos_freq)) ;;
  es <~ alloc.fresh (jnp.multiply (value x_even) (value sin_freq)) ;;
  new_odd <~ alloc.fresh (jnp.add (value oc) (value es)) ;;
  stacked <~ alloc.fresh (jnp.stack_last (value new_even) (value new_odd)) ;;
  alloc.view stacked
    (jnp.reshape_infer_last
       (firstn (length (shape (value stacked)) - 2) (shape (value stacked)))
       (value stacked)).

(** ** Quantities the properties are stated with *)

(** The rotation angle of plane [k] at batch [b] and sequence position
    [s]: [position[b, s] * base ** (-2k / head_dim)]. *)
Definition angle (position : Array) (base : R) (head_dim b s k : nat) : R :=
  get position [b; s] * Rpower base (-2 * INR k / INR head_dim).

(** [jnp.sum(a * b, axis=-1)] at the leading index [idx], for two arrays
    whose last axis has length [n]. *)
Definition dot_last (n : nat) (a b : Array) (idx : list nat) : R :=
  fold_right Rplus 0
    (map (fun d => get a (idx ++ [d]) * get b (idx ++ [d])) (seq 0 n)).

(** [out] holds, at the indices [2k] and [2k+1] of its last axis, the pair
    [(x[..., 2k], x[..., 2k+1])] rotated by the angle of plane [k]. *)
Definition rotated (x position : Array) (base : R) (B S H D : nat)
    (out : Array) : Prop :=
  forall b s h k,
    (b < B)%nat -> (s < S)%nat -> (h < H)%nat -> (k < D / 2)%nat ->
    let f := angle position base D b s k in
    get out [b; s; h; (2 * k)%nat] =
      get x [b; s; h; (2 * k)%nat] * cos f
      - get x [b; s; h; (2 * k + 1)%nat] * sin f /\
    get out [b; s; h; (2 * k + 1)%nat] =
      get x [b; s; h; (2 * k + 1)%nat] * cos f
      + get x [b; s; h; (2 * k)%nat] * sin f.


(** ** Sample inputs *)

(** Positions of shape (2), shared by the batch; of shape (3, 2), for three
    batches; and of shape (1, 3), for three sequence indices. *)
Definition position_row : Array := mkArray int32 [2]%nat [0; 3].

Definition position_batches : Array :=
  mkArray int32 [3; 2]%nat [0; 1; 2; 3; 4; 5].

Definition position_long : Array := mkArray int32 [1; 3]%nat [0; 1; 2].

(** One batch, two positions, two heads, four features. *)
Definition x_sample : Array :=
  mkArray float32 [1; 2; 2; 4]%nat
    [1; 2; 3; 4; 5; 6; 7; 8; 9; 10; 11; 12; 13; 14; 15; 16].

Definition y_sample : Array :=
  mkArray float32 [1; 2; 2; 4]%nat
    [2; 0; -1; 3; 1; 1; 0; 5; -2; 4; 6; 1; 0; 0; 7; -3].

Definition position_sample : Array := mkArray int32 [1; 2]%nat [0; 3].

Definition shift_sample : Array := mkArray int32 [1; 2]%nat [5; 1].

(** A position of the 8-bit integer type. *)
Definition position_int8 : Array := mkArray int8 [1; 1]%nat [100].

(** The scenario B = S = H = 1, D = 2, x = [[[[1.0, 0.0]]]], in a given
    element type, with the positions [[0]] and [[pi/2]]. *)
Definition x_unit (dt : DType) : Array := mkArray dt [1; 1; 1; 2]%nat [1; 0].

Definition position_origin : Array := mkArray int32 [1; 1]%nat [0].

(** A single head of four features, of which only the first is set. *)
Definition x_first_feature : Array :=
  mkArray float32 [1; 1; 1; 4]%nat [1; 0; 0; 0].

Definition position_quarter_turn : Array :=
  mkArray float32 [1; 1]%nat [PI / 2].

(** A computation that does not fail with [AssertionError]: it succeeds or
    fails in the runtime or the array library. *)
Definition library_failure_only {A : Type} (m : result A) : Prop :=
  m <> Err AssertionError.

(** ** Row-major buffers *)

Section Buffers.

Lemma ravel_lt (sh idx : list nat) :
  in_range sh idx -> (ravel sh idx < size sh)%nat.
Proof.
  revert idx; induction sh as [|n sh IH]; intros [|i idx] H; simpl in *;
    try contradiction; try lia.
  destruct H as [Hi H]. specialize (IH _ H). nia.
Qed.

Lemma length_tabulate (sh : list nat) (f : list nat -> R) :
  length (tabulate sh f) = size sh.
Proof.
  revert f; induction sh as [|n sh IH]; intros f; simpl; [reflexivity|].
  generalize 0%nat as lo.
  induction n as [|n IHn]; intros lo; simpl; [reflexivity|].
  rewrite length_app, IH, IHn. reflexivity.
Qed.

(** Element [j] of block [i] of a concatenation of blocks of length [m]. *)
Lemma nth_flat_map_block (g : nat -> list R) (m : nat) (l : list nat)
      (i j : nat) (d : R) :
  (forall a, length (g a) = m) ->
  (i < length l)%nat -> (j < m)%nat ->
  nth (i * m + j) (flat_map g l) d = nth j (g (nth i l 0%nat)) d.
Proof.
  intros Hg. revert i; induction l as [|a l IH]; intros i Hi Hj; simpl in *.
  - lia.
  - destruct i as [|i].
    + simpl. rewrite app_nth1 by (rewrite Hg; exact Hj). reflexivity.
    + rewrite app_nth2 by (rewrite Hg; simpl; lia).
      rewrite Hg. replace (S i * m + j - m)%nat with (i * m + j)%nat
        by (simpl; lia).
      apply IH; lia.
Qed.

Lemma nth_tabulate (sh idx : list nat) (f : list nat -> R) (d : R) :
  in_range sh idx -> nth (ravel sh idx) (tabulate sh f) d = f idx.
Proof.
  revert idx f; induction sh as [|n sh IH]; intros [|i idx] f H; simpl in *;
    try contradiction; [reflexivity|].
  destruct H as [Hi H].
  rewrite (nth_flat_map_block _ (size sh)).
  - rewrite seq_nth by exact Hi. simpl.
    apply (IH idx (fun idx' => f (i :: idx')) H).
  - intros a. apply length_tabulate.
  - rewrite length_seq. exact Hi.
  - apply ravel_lt. exact H.
Qed.

Lemma tabulate_ext (sh : list nat) (f g : list nat -> R) :
  (forall idx, in_range sh idx -> f idx = g idx) ->
  tabulate sh f = tabulate sh g.
Proof.
  revert f g; induction sh as [|n sh IH]; intros f g H; simpl.
  - rewrite (H []); simpl; trivial.
  - assert (Hall : forall i, In i (seq 0 n) ->
              tabulate sh (fun idx => f (i :: idx)) =
              tabulate sh (fun idx => g (i :: idx))).
    { intros i Hi. apply in_seq in Hi. apply IH. intros idx Hidx.
      apply H. simpl. split; [lia | exact Hidx]. }
    revert Hall. generalize (seq 0 n) as l.
    induction l as [|a l IHl]; intros Hall; simpl; [reflexivity|].
    rewrite (Hall a) by (left; reflexivity).
    rewrite IHl; [reflexivity|]. intros i Hi. apply Hall. right. exact Hi.
Qed.

(** A list cut into [n] consecutive blocks of length [m]. *)
Lemma flat_map_blocks (m n : nat) (l : list R) :
  length l = (n * m)%nat ->
  flat_map (fun i => firstn m (skipn (i * m) l)) (seq 0 n) = l.
Proof.
  revert l; induction n as [|n IH]; intros l Hl.
  - simpl in *. destruct l; [reflexivity | discriminate].
  - replace (S n) with (n + 1)%nat by lia.
    rewrite seq_app, flat_map_app. simpl. rewrite app_nil_r.
    transitivity (firstn (n * m) l ++ skipn (n * m) l);
      [|apply firstn_skipn].
    f_equal.
    + transitivity
        (flat_map (fun i => firstn m (skipn (i * m) (firstn (n * m) l)))
                  (seq 0 n)).
      2:{ apply IH. rewrite length_firstn. lia. }
      assert (Hall : forall i, In i (seq 0 n) ->
                firstn m (skipn (i * m) l) =
                firstn m (skipn (i * m) (firstn (n * m) l))).
      { intros i Hi. apply in_seq in Hi.
        rewrite skipn_firstn_comm, firstn_firstn.
        f_equal. nia. }
      revert Hall. generalize (seq 0 n) as s.
      induction s as [|a s IHs]; intros Hall; simpl; [reflexivity|].
      rewrite (Hall a) by (left; reflexivity).
      rewrite IHs; [reflexivity|]. intros i Hi. apply Hall. right. exact Hi.
    + apply firstn_all2. rewrite length_skipn. lia.
Qed.

Lemma nth_block (m i j : nat) (l : list R) (d : R) :
  (j < m)%nat -> nth j (firstn m (skipn (i * m) l)) d = nth (i * m + j) l d.
Proof.
  intros Hj. rewrite nth_firstn.
  destruct (Nat.ltb_spec j m); [|lia].
  rewrite nth_skipn. reflexivity.
Qed.

Lemma tabulate_nth (sh : list nat) (l : list R) :
  length l = size sh ->
  tabulate sh (fun idx => nth (ravel sh idx) l 0) = l.
Proof.
  revert l; induction sh as [|n sh IH]; intros l Hl; simpl in *.
  - destruct l as [|a [|b l]]; simpl in *; try discriminate. reflexivity.
  - transitivity
      (flat_map (fun i => firstn (size sh) (skipn (i * size sh) l)) (seq 0 n));
      [|apply flat_map_blocks; exact Hl].
    assert (Hall : forall i, In i (seq 0 n) ->
              tabulate sh (fun idx => nth (i * size sh + ravel sh idx) l 0) =
              firstn (size sh) (skipn (i * size sh) l)).
    { intros i Hi. apply in_seq in Hi.
      transitivity
        (tabulate sh (fun idx =>
           nth (ravel sh idx) (firstn (size sh) (skipn (i * size sh) l)) 0)).
      2:{ apply IH. rewrite length_firstn, length_skipn. nia. }
      apply tabulate_ext. intros idx Hidx.
      rewrite nth_block by (apply ravel_lt; exact Hidx). reflexivity. }
    revert Hall. generalize (seq 0 n) as s.
    induction s as [|a s IHs]; intros Hall; simpl; [reflexivity|].
    rewrite (Hall a) by (left; reflexivity).
    rewrite IHs; [reflexivity|]. intros i Hi. apply Hall. right. exact Hi.
Qed.

(** Two well-formed arrays of the same type and shape that agree at every
    index are equal. *)
Lemma array_ext (a b : Array) :
  wf a -> wf b -> dtype a = dtype b -> shape a = shape b ->
  (forall idx, in_range (shape a) idx -> get a idx = get b idx) ->
  a = b.
Proof.
  destruct a as [da sa la], b as [db sb lb]; unfold wf, get; simpl.
  intros Ha Hb -> <- H. f_equal.
  rewrite <- (tabulate_nth sa la Ha), <- (tabulate_nth sa lb Hb).
  apply tabulate_ext. exact H.
Qed.

Lemma get_build (dt : DType) (sh idx : list nat) (f : list nat -> R) :
  in_range sh idx -> get (build dt sh f) idx = f idx.
Proof. intros H. unfold get, build; simpl. apply nth_tabulate. exact H. Qed.

Lemma wf_build (dt : DType) (sh : list nat) (f : list nat -> R) :
  wf (build dt sh f).
Proof. unfold wf, build; simpl. apply length_tabulate. Qed.

End Buffers.

(** ** Elementwise operations and broadcasting *)

Section Elementwise.


Lemma get_map_array (dt : DType) (f : R -> R) (a : Array) (idx : list nat) :
  wf a -> in_range (shape a) idx ->
  get (jnp.map_array dt f a) idx = f (get a idx).
Proof.
  unfold wf, get; simpl. intros Hwf Hidx.
  rewrite (nth_indep _ 0 (f 0)).
  - apply map_nth.
  - rewrite length_map, Hwf. apply ravel_lt. exact Hidx.
Qed.

Lemma get_full (dt : DType) (sh idx : list nat) (v : R) :
  in_range sh idx -> get (jnp.full dt sh v) idx = v.
Proof.
  intros H. unfold get; simpl. apply nth_repeat_lt. apply ravel_lt. exact H.
Qed.

Lemma wf_full (dt : DType) (sh : list nat) (v : R) : wf (jnp.full dt sh v).
Proof. unfold wf; simpl. apply repeat_length. Qed.

(** Along an axis of length [n], a valid index is its own broadcast. *)
Lemma broadcast_axis (n i : nat) :
  (i < n)%nat -> (if (n =? 1)%nat then 0%nat else i) = i.
Proof. intros H. destruct (Nat.eqb_spec n 1); lia. Qed.

Lemma broadcast_rev_same (r : list nat) : jnp.broadcast_rev r r = Some r.
Proof.
  induction r as [|a r IH]; simpl; [reflexivity|].
  rewrite IH, Nat.eqb_refl. reflexivity.
Qed.

Lemma broadcast_shapes_same (s : list nat) : jnp.broadcast_shapes s s = Some s.
Proof.
  unfold jnp.broadcast_shapes. rewrite broadcast_rev_same. simpl.
  rewrite rev_involutive. reflexivity.
Qed.

Lemma in_range_length (sh idx : list nat) :
  in_range sh idx -> length idx = length sh.
Proof.
  revert idx; induction sh as [|n sh IH]; intros [|i idx] H; simpl in *;
    try contradiction; [reflexivity|].
  f_equal. apply IH. tauto.
Qed.

Lemma broadcast_index_same (s idx : list nat) :
  in_range s idx -> jnp.broadcast_index s idx = idx.
Proof.
  intros H. unfold jnp.broadcast_index.
  rewrite (in_range_length _ _ H), Nat.sub_diag. simpl.
  revert idx H; induction s as [|n s IH]; intros [|i idx] H; simpl in *;
    try contradiction; [reflexivity|].
  destruct H as [Hi H]. rewrite (broadcast_axis _ _ Hi), (IH _ H). reflexivity.
Qed.

(** A binary operation on two arrays of the same shape. *)
Lemma binop_same (op : R -> R -> R) (a b : Array) :
  shape b = shape a ->
  exists c, jnp.binop op a b = Ok c /\
    dtype c = promote_types (dtype a) (dtype b) /\
    shape c = shape a /\ wf c /\
    forall idx, in_range (shape a) idx ->
      get c idx = op (get a idx) (get b idx).
Proof.
  intros Hs. unfold jnp.binop. rewrite Hs, broadcast_shapes_same.
  eexists; split; [reflexivity|]. simpl.
  repeat split; [apply wf_build|].
  intros idx Hidx. rewrite get_build by exact Hidx.
  rewrite broadcast_index_same by exact Hidx. reflexivity.
Qed.

End Elementwise.

(** ** The rotation angles *)

Section Angles.

Variables (base : R) (head_dim : nat).

Lemma shape_rope_timescale :
  shape (rope_timescale base head_dim) = [(head_dim / 2)%nat].
Proof. simpl. rewrite Nat.sub_0_r. reflexivity. Qed.

Lemma wf_rope_timescale : wf (rope_timescale base head_dim).
Proof.
  unfold wf; simpl. rewrite !length_map, length_seq. lia.
Qed.

Lemma dtype_rope_timescale : dtype (rope_timescale base head_dim) = float32.
Proof. reflexivity. Qed.

Lemma data_rope_timescale :
  data (rope_timescale base head_dim) =
  map (fun k => Rpower base (-2 * INR k / INR head_dim))
      (seq 0 (head_dim / 2)).
Proof.
  simpl. rewrite Nat.sub_0_r, !map_map. reflexivity.
Qed.

Lemma get_rope_timescale (k : nat) :
  (k < head_dim / 2)%nat ->
  get (rope_timescale base head_dim) [k] =
  Rpower base (-2 * INR k / INR head_dim).
Proof.
  intros Hk. unfold get. rewrite shape_rope_timescale, data_rope_timescale.
  simpl ravel. replace (k * 1 + 0)%nat with k by lia.
  rewrite (nth_indep _ 0 (Rpower base (-2 * INR 0 / INR head_dim)))
    by (rewrite length_map, length_seq; exact Hk).
  rewrite (map_nth (fun k => Rpower base (-2 * INR k / INR head_dim))).
  rewrite seq_nth by exact Hk. reflexivity.
Qed.

End Angles.

Section Freq.

Variables (position : Array) (base : R) (head_dim B S : nat).
Hypothesis Hshape : shape position = [B; S].

Lemma rope_freq_ok :
  exists freq, rope_freq position base head_dim = Ok freq /\
    dtype freq = promote_types (dtype position) float32 /\
    shape freq = [B; S; (head_dim / 2)%nat] /\ wf freq /\
    forall b s k, (b < B)%nat -> (s < S)%nat -> (k < head_dim / 2)%nat ->
      get freq [b; s; k] = angle position base head_dim b s k.
Proof.
  unfold rope_freq, jnp.multiply, jnp.binop.
  rewrite shape_rope_timescale.
  pose proof (get_rope_timescale base head_dim) as Hts.
  pose proof (dtype_rope_timescale base head_dim) as Hdt.
  unfold angle. remember (head_dim / 2)%nat as K eqn:HK. clear HK.
  remember (rope_timescale base head_dim) as ts eqn:Hts'. clear Hts'.
  assert (Hb : jnp.broadcast_shapes (shape (jnp.newaxis_last position)) [K]
               = Some [B; S; K]).
  { simpl. rewrite Hshape. unfold jnp.broadcast_shapes. simpl.
    destruct K as [|[|K']]; reflexivity. }
  rewrite Hb. eexists; split; [reflexivity|].
  split; [simpl; rewrite Hdt; reflexivity|].
  split; [reflexivity|]. split; [apply wf_build|].
  intros b s k Hb' Hs Hk.
  rewrite get_build by (simpl; tauto).
  simpl shape. rewrite Hshape. unfold jnp.broadcast_index. simpl.
  rewrite (broadcast_axis _ _ Hb'), (broadcast_axis _ _ Hs),
    (broadcast_axis _ _ Hk).
  rewrite (Hts k Hk). f_equal.
  unfold get; simpl. rewrite Hshape. reflexivity.
Qed.

End Freq.

(** ** The even/odd split *)

Lemma even_slice_length (K : nat) : ((2 * K - 0 + (2 - 1)) / 2)%nat = K.
Proof. symmetry. apply (Nat.div_unique _ 2 K 1); lia. Qed.

Lemma odd_slice_length (K : nat) : ((2 * K - 1 + (2 - 1)) / 2)%nat = K.
Proof.
  destruct K as [|K]; [reflexivity|].
  symmetry. apply (Nat.div_unique _ 2 (S K) 0); lia.
Qed.

Section Split.

Variables (x : Array) (B S H D K : nat).
Hypothesis Hshape : shape x = [B; S; H; D].
Hypothesis HD : D = (2 * K)%nat.

Lemma slice_even_ok :
  exists x_even, jnp.slice_last 0 2 x = Ok x_even /\
    dtype x_even = dtype x /\ shape x_even = [B; S; H; K] /\ wf x_even /\
    forall b s h k, (b < B)%nat -> (s < S)%nat -> (h < H)%nat -> (k < K)%nat ->
      get x_even [b; s; h; k] = get x [b; s; h; (2 * k)%nat].
Proof.
  unfold jnp.slice_last. rewrite Hshape. cbn [rev app].
  rewrite HD, even_slice_length.
  eexists; split; [reflexivity|].
  split; [reflexivity|]. split; [reflexivity|]. split; [apply wf_build|].
  intros b s h k Hb Hs Hh Hk.
  rewrite get_build by (simpl; tauto).
  cbn [removelast last app Nat.add]. reflexivity.
Qed.

Lemma slice_odd_ok :
  exists x_odd, jnp.slice_last 1 2 x = Ok x_odd /\
    dtype x_odd = dtype x /\ shape x_odd = [B; S; H; K] /\ wf x_odd /\
    forall b s h k, (b < B)%nat -> (s < S)%nat -> (h < H)%nat -> (k < K)%nat ->
      get x_odd [b; s; h; k] = get x [b; s; h; (2 * k + 1)%nat].
Proof.
  unfold jnp.slice_last. rewrite Hshape. cbn [rev app].
  rewrite HD, odd_slice_length.
  eexists; split; [reflexivity|].
  split; [reflexivity|]. split; [reflexivity|]. split; [apply wf_build|].
  intros b s h k Hb Hs Hh Hk.
  rewrite get_build by (simpl; tauto).
  cbn [removelast last app].
  replace (1 + 2 * k)%nat with (2 * k + 1)%nat by lia. reflexivity.
Qed.

End Split.

(** ** Broadcasting the angles over the heads *)

Section Heads.

Variables (B S H K : nat).

Lemma broadcast_heads :
  jnp.broadcast_shapes [B; S; H; K] [B; S; 1%nat; K] = Some [B; S; H; K].
Proof.
  unfold jnp.broadcast_shapes. cbn [rev app jnp.broadcast_rev].
  rewrite !Nat.eqb_refl.
  destruct (Nat.eqb_spec H 1) as [->|]; reflexivity.
Qed.

(** An array with one row per head combined with one shared by all heads. *)
Lemma binop_heads (op : R -> R -> R) (a c : Array) :
  shape a = [B; S; H; K] -> shape c = [B; S; 1%nat; K] ->
  exists r, jnp.binop op a c = Ok r /\
    dtype r = promote_types (dtype a) (dtype c) /\
    shape r = [B; S; H; K] /\ wf r /\
    forall b s h k, (b < B)%nat -> (s < S)%nat -> (h < H)%nat -> (k < K)%nat ->
      get r [b; s; h; k] = op (get a [b; s; h; k]) (get c [b; s; 0%nat; k]).
Proof.
  intros Ha Hc. unfold jnp.binop. rewrite Ha, Hc, broadcast_heads.
  eexists; split; [reflexivity|].
  split; [reflexivity|]. split; [reflexivity|]. split; [apply wf_build|].
  intros b s h k Hb Hs Hh Hk.
  rewrite get_build by (simpl; tauto).
  rewrite broadcast_index_same by (simpl; tauto).
  unfold jnp.broadcast_index. cbn [length Nat.sub skipn combine map fst snd].
  rewrite (broadcast_axis _ _ Hb), (broadcast_axis _ _ Hs),
    (broadcast_axis _ _ Hk).
  reflexivity.
Qed.

End Heads.

(** ** Re-interleaving *)

(** The batch, sequence and head axes are not empty: the length of the
    last axis of the reshape is inferred by dividing by their product. *)

Section Interleave.

Variables (B S H K : nat).
Hypothesis HB : (0 < B)%nat.
Hypothesis HS : (0 < S)%nat.
Hypothesis HH : (0 < H)%nat.

Lemma merged_axis_length :
  (size [B; S; H; K; 2%nat] / size [B; S; H] = 2 * K)%nat /\
  (size [B; S; H; K; 2%nat] mod size [B; S; H] = 0)%nat /\
  size [B; S; H] <> 0%nat.
Proof.
  assert (Hm : size [B; S; H] <> 0%nat) by (simpl; nia).
  assert (Hn : size [B; S; H; K; 2%nat] = (2 * K * size [B; S; H])%nat)
    by (simpl; nia).
  rewrite Hn. repeat split.
  - apply Nat.div_mul. exact Hm.
  - apply Nat.Div0.mod_mul.
  - exact Hm.
Qed.

Lemma stack_reshape_ok (new_even new_odd : Array) :
  shape new_even = [B; S; H; K] -> shape new_odd = [B; S; H; K] ->
  exists stacked out,
    jnp.stack_last new_even new_odd = Ok stacked /\
    jnp.reshape_infer_last
      (firstn (length (shape stacked) - 2) (shape stacked)) stacked = Ok out /\
    dtype out = promote_types (dtype new_even) (dtype new_odd) /\
    shape out = [B; S; H; (2 * K)%nat] /\ wf out /\
    forall b s h k, (b < B)%nat -> (s < S)%nat -> (h < H)%nat -> (k < K)%nat ->
      get out [b; s; h; (2 * k)%nat] = get new_even [b; s; h; k] /\
      get out [b; s; h; (2 * k + 1)%nat] = get new_odd [b; s; h; k].
Proof.
  intros He Ho. unfold jnp.stack_last. rewrite He, Ho.
  assert (Heq : jnp.shape_eqb [B; S; H; K] [B; S; H; K] = true)
    by (simpl; rewrite !Nat.eqb_refl; reflexivity).
  rewrite Heq. eexists; eexists; split; [reflexivity|].
  unfold jnp.reshape_infer_last.
  cbn [build shape app length Nat.sub firstn dtype data].
  destruct merged_axis_length as (Hdiv & Hmod & Hnz).
  rewrite Hdiv, Hmod.
  destruct (Nat.eqb_spec (size [B; S; H]) 0) as [E|_]; [contradiction|].
  cbn [Nat.eqb]. split; [reflexivity|].
  split; [reflexivity|]. split; [reflexivity|].
  split; [unfold wf; cbn [data shape]; rewrite length_tabulate; simpl; nia|].
  intros b s h k Hb Hs Hh Hk.
  split; unfold get at 1; cbn [shape data].
  - replace (ravel [B; S; H; (2 * K)%nat] [b; s; h; (2 * k)%nat])
      with (ravel [B; S; H; K; 2%nat] [b; s; h; k; 0%nat]) by (simpl; nia).
    rewrite nth_tabulate by (simpl; repeat split; lia). reflexivity.
  - replace (ravel [B; S; H; (2 * K)%nat] [b; s; h; (2 * k + 1)%nat])
      with (ravel [B; S; H; K; 2%nat] [b; s; h; k; 1%nat]) by (simpl; nia).
    rewrite nth_tabulate by (simpl; repeat split; lia). reflexivity.
Qed.

End Interleave.

(** ** Element type of the result *)

Lemma promote_float32_r (d : DType) : promote_types d float32 = float32.
Proof. destruct d; reflexivity. Qed.

Lemma promote_float32_l (d : DType) : promote_types float32 d = float32.
Proof. destruct d; reflexivity. Qed.

(** ** The result of [apply_rope] on a rank-4 input *)

Section Rank4.

Variables (x position : Array) (base : R) (B S H D : nat).
Hypothesis Hx : shape x = [B; S; H; D].
Hypothesis Hp : shape position = [B; S].
Hypothesis Heven : (D mod 2 = 0)%nat.
Hypothesis HB : (0 < B)%nat.
Hypothesis HS : (0 < S)%nat.
Hypothesis HH : (0 < H)%nat.

Lemma apply_rope_ok :
  exists out, apply_rope x position base = Ok out /\
    dtype out = float32 /\ shape out = [B; S; H; D] /\ wf out /\
    rotated x position base B S H D out.
Proof.
  assert (HD : D = (2 * (D / 2))%nat) by (apply Nat.Div0.div_exact; exact Heven).
  unfold rotated. remember (D / 2)%nat as K eqn:HK.
  unfold apply_rope.
  unfold jnp.shape_last. rewrite Hx. cbn [rev app bind].
  rewrite Heven. cbn [Nat.eqb assert_ bind].
  destruct (rope_freq_ok position base D B S Hp)
    as (freq & -> & Hfd & Hfs & Hfw & Hfg).
  rewrite <- HK in Hfs, Hfg. cbn [bind].
  unfold jnp.newaxis_penultimate. rewrite Hfs. cbn [rev app bind].
  set (freq' := mkArray (dtype freq) [B; S; 1%nat; K] (data freq)).
  assert (Hfw' : wf freq').
  { unfold wf in *. cbn [freq' data shape]. rewrite Hfw, Hfs. simpl. lia. }
  assert (Hfg' : forall b s k, (b < B)%nat -> (s < S)%nat -> (k < K)%nat ->
            get freq' [b; s; 0%nat; k] = angle position base D b s k).
  { intros b s k Hb Hs Hk. rewrite <- (Hfg b s k Hb Hs Hk).
    unfold get. cbn [freq' data shape]. rewrite Hfs. f_equal. simpl. lia. }
  destruct (slice_even_ok x B S H D K Hx HD)
    as (x_even & -> & Hed & Hes & Hew & Heg).
  destruct (slice_odd_ok x B S H D K Hx HD)
    as (x_odd & -> & Hod & Hos & How & Hog).
  cbn [bind]. unfold jnp.multiply, jnp.subtract, jnp.add.
  destruct (binop_heads B S H K Rmult x_even (jnp.cos freq') Hes eq_refl)
    as (ec & -> & Hecd & Hecs & Hecw & Hecg).
  destruct (binop_heads B S H K Rmult x_odd (jnp.sin freq') Hos eq_refl)
    as (os & -> & Hosd & Hoss & Hosw & Hosg).
  cbn [bind].
  destruct (binop_same Rminus ec os) as (ne & -> & Hned & Hnes & Hnew & Hneg);
    [congruence|].
  destruct (binop_heads B S H K Rmult x_odd (jnp.cos freq') Hos eq_refl)
    as (oc & -> & Hocd & Hocs & Hocw & Hocg).
  destruct (binop_heads B S H K Rmult x_even (jnp.sin freq') Hes eq_refl)
    as (es & -> & Hesd & Hess & Hesw & Hesg).
  cbn [bind].
  destruct (binop_same Rplus oc es) as (no & -> & Hnod & Hnos & Hnow & Hnog);
    [congruence|].
  cbn [bind].
  rewrite Hecs in Hnes, Hneg. rewrite Hocs in Hnos, Hnog.
  destruct (stack_reshape_ok B S H K HB HS HH ne no Hnes Hnos)
    as (stacked & out & -> & Hout & Houtd & Houts & Houtw & Houtg).
  cbn [bind]. exists out. split; [exact Hout|].
  split.
  { rewrite Houtd, Hned, Hnod, Hecd, Hosd, Hocd, Hesd.
    cbn [jnp.cos jnp.sin jnp.map_array dtype freq']. rewrite Hfd.
    rewrite promote_float32_r. cbn [to_inexact is_float].
    rewrite !promote_float32_r. reflexivity. }
  split; [rewrite Houts, <- HD; reflexivity|].
  split; [exact Houtw|].
  intros b s h k Hb Hs Hh Hk.
  destruct (Houtg b s h k Hb Hs Hh Hk) as [-> ->].
  rewrite Hneg, Hnog by (simpl; tauto).
  rewrite Hecg, Hosg, Hocg, Hesg by assumption.
  rewrite Heg, Hog by assumption.
  unfold jnp.cos, jnp.sin.
  rewrite !get_map_array by (try exact Hfw'; simpl; repeat split; lia).
  rewrite Hfg' by assumption.
  cbv zeta. split; reflexivity.
Qed.

End Rank4.

(** ** Properties of [apply_rope] *)

(** *** The only failure of the function's own *)

Section Failures.

Lemma bind_library {A C : Type} (m : result A) (k : A -> result C) :
  library_failure_only m -> (forall a, library_failure_only (k a)) ->
  library_failure_only (bind m k).
Proof.
  unfold library_failure_only. destruct m as [a|e]; simpl; intros Hm Hk.
  - apply Hk.
  - intros E. apply Hm. injection E as ->. reflexivity.
Qed.

Lemma binop_library (op : R -> R -> R) (a b : Array) :
  library_failure_only (jnp.binop op a b).
Proof.
  unfold library_failure_only, jnp.binop.
  destruct (jnp.broadcast_shapes _ _); discriminate.
Qed.

Lemma slice_last_library (start step : nat) (a : Array) :
  library_failure_only (jnp.slice_last start step a).
Proof.
  unfold library_failure_only, jnp.slice_last.
  destruct (rev _); discriminate.
Qed.

Lemma newaxis_penultimate_library (a : Array) :
  library_failure_only (jnp.newaxis_penultimate a).
Proof.
  unfold library_failure_only, jnp.newaxis_penultimate.
  destruct (rev _); discriminate.
Qed.

Lemma stack_last_library (a b : Array) :
  library_failure_only (jnp.stack_last a b).
Proof.
  unfold library_failure_only, jnp.stack_last.
  destruct (jnp.shape_eqb _ _); discriminate.
Qed.

Lemma reshape_infer_last_library (lead : list nat) (a : Array) :
  library_failure_only (jnp.reshape_infer_last lead a).
Proof.
  unfold library_failure_only, jnp.reshape_infer_last.
  destruct (_ =? _)%nat; [discriminate|].
  destruct (_ =? _)%nat; discriminate.
Qed.

(** Everything after the assertion. *)
Lemma after_assert_library (x position : Array) (base : R) (head_dim : nat) :
  library_failure_only
    (freq <- rope_freq position base head_dim ;;
     freq <- jnp.newaxis_penultimate freq ;;
     let cos_freq := jnp.cos freq in
     let sin_freq := jnp.sin freq in
     x_even <- jnp.slice_last 0 2 x ;;
     x_odd <- jnp.slice_last 1 2 x ;;
     ec <- jnp.multiply x_even cos_freq ;;
     os <- jnp.multiply x_odd sin_freq ;;
     new_even <- jnp.subtract ec os ;;
     oc <- jnp.multiply x_odd cos_freq ;;
     es <- jnp.multiply x_even sin_freq ;;
     new_odd <- jnp.add oc es ;;
     stacked <- jnp.stack_last new_even new_odd ;;
     jnp.reshape_infer_last
       (firstn (length (shape stacked) - 2) (shape stacked)) stacked).
Proof.
  repeat first
    [ apply reshape_infer_last_library
    | apply bind_library; [|intro]
    | apply binop_library
    | apply slice_last_library
    | apply newaxis_penultimate_library
    | apply stack_last_library
    | cbv zeta ].
Qed.

Lemma last_axis (sh : list nat) (D : nat) :
  (exists r, rev sh = D :: r) <-> (exists lead, sh = lead ++ [D]).
Proof.
  split.
  - intros [r Hr]. exists (rev r).
    rewrite <- (rev_involutive sh), Hr. reflexivity.
  - intros [lead ->]. exists (rev lead). rewrite rev_app_distr. reflexivity.
Qed.

End Failures.

(** C3. [apply_rope] fails with its own precondition failure exactly when
    the last dimension of [x] is odd, whatever the other arguments are; no
    other failure is raised by the function itself. *)
Theorem apply_rope_rejects_odd (x position : Array) (base : R) :
  apply_rope x position base = Err AssertionError <->
  exists lead D, shape x = lead ++ [D] /\ Nat.odd D = true.
Proof.
  unfold apply_rope, jnp.shape_last.
  split.
  - destruct (rev (shape x)) as [|D r] eqn:Hrev; cbn [bind]; [discriminate|].
    intros Hfail.
    destruct (proj1 (last_axis (shape x) D) (ex_intro _ r Hrev)) as [lead Hl].
    exists lead, D. split; [exact Hl|].
    destruct (Nat.eqb_spec (D mod 2) 0) as [E|E].
    + exfalso. cbn [assert_ bind] in Hfail.
      exact (after_assert_library x position base D Hfail).
    + rewrite <- Nat.negb_even.
      destruct (Nat.even D) eqn:Hev; [|reflexivity].
      exfalso. apply E. apply Nat.even_spec in Hev.
      destruct Hev as [m ->]. rewrite Nat.mul_comm. apply Nat.Div0.mod_mul.
  - intros (lead & D & Hl & Hodd).
    destruct (proj2 (last_axis (shape x) D) (ex_intro _ lead Hl)) as [r ->].
    cbn [bind].
    assert (E : (D mod 2 =? 0)%nat = false).
    { apply Nat.eqb_neq. apply Nat.odd_spec in Hodd. destruct Hodd as [m ->].
      rewrite Nat.add_comm, Nat.mul_comm, Nat.Div0.mod_add. discriminate. }
    rewrite E. reflexivity.
Qed.

(** *** Comparing two rank-4 arrays pair by pair *)

Section Pairs.

Lemma data_ext (a b : Array) :
  wf a -> wf b -> shape a = shape b ->
  (forall idx, in_range (shape a) idx -> get a idx = get b idx) ->
  data a = data b.
Proof.
  destruct a as [da sa la], b as [db sb lb]; unfold wf, get; simpl.
  intros Ha Hb <- H.
  rewrite <- (tabulate_nth sa la Ha), <- (tabulate_nth sa lb Hb).
  apply tabulate_ext. exact H.
Qed.

Lemma array_eq (a b : Array) :
  dtype a = dtype b -> shape a = shape b -> data a = data b -> a = b.
Proof. destruct a, b; simpl; intros -> -> ->. reflexivity. Qed.

(** Every index below an even [D] is [2k] or [2k+1] for a plane [k]. *)
Lemma plane_of_index (D d : nat) :
  (D mod 2 = 0)%nat -> (d < D)%nat ->
  exists k, (k < D / 2)%nat /\ (d = 2 * k \/ d = 2 * k + 1)%nat.
Proof.
  intros Heven Hd. exists (d / 2)%nat.
  pose proof (Nat.div_mod_eq d 2) as Ed.
  pose proof (Nat.div_mod_eq D 2) as ED.
  pose proof (Nat.mod_upper_bound d 2) as Hm.
  split; lia.
Qed.

Lemma pairs_ext (a b : Array) (B S H D : nat) :
  wf a -> wf b -> shape a = [B; S; H; D] -> shape b = [B; S; H; D] ->
  (D mod 2 = 0)%nat ->
  (forall i s h k,
     (i < B)%nat -> (s < S)%nat -> (h < H)%nat -> (k < D / 2)%nat ->
     get a [i; s; h; (2 * k)%nat] = get b [i; s; h; (2 * k)%nat] /\
     get a [i; s; h; (2 * k + 1)%nat] = get b [i; s; h; (2 * k + 1)%nat]) ->
  data a = data b.
Proof.
  intros Ha Hb Hsa Hsb Heven Hget.
  apply data_ext; [exact Ha | exact Hb | congruence |].
  rewrite Hsa. intros idx Hidx.
  destruct idx as [|i [|s [|h [|d [|? ?]]]]]; simpl in Hidx; try tauto.
  destruct Hidx as (Hi & Hs & Hh & Hd & _).
  destruct (plane_of_index D d Heven Hd) as (k & Hk & [-> | ->]);
    apply (Hget i s h k Hi Hs Hh Hk).
Qed.

Lemma fold_right_acc (l : list R) (c : R) :
  fold_right Rplus c l = fold_right Rplus 0 l + c.
Proof.
  induction l as [|v l IHl]; simpl; [lra|]. rewrite IHl. lra.
Qed.

(** A sum over an axis of even length, taken plane by plane. *)
Lemma sum_by_pairs (f : nat -> R) (K : nat) :
  fold_right Rplus 0 (map f (seq 0 (2 * K))) =
  fold_right Rplus 0
    (map (fun k => f (2 * k)%nat + f (2 * k + 1)%nat) (seq 0 K)).
Proof.
  induction K as [|K IH]; [reflexivity|].
  replace (2 * S K)%nat with (2 * K + 2)%nat by lia.
  replace (S K) with (K + 1)%nat by lia.
  rewrite !seq_app, !map_app, !fold_right_app. cbn [seq map fold_right].
  rewrite !Nat.add_0_l.
  rewrite (fold_right_acc _ (f (2 * K)%nat + _)),
    (fold_right_acc _ (f (2 * K)%nat + f _ + 0)).
  rewrite IH. replace (S (2 * K)) with (2 * K + 1)%nat by lia. lra.
Qed.

End Pairs.

(** X10. On non-empty axes, at the all-zero position array every angle
    is 0, so the result holds exactly the values of [x], in the shape of
    [x]; it is [x] itself when [x] is single precision. *)
Theorem apply_rope_zero_position (x : Array) (base : R) (B S H D : nat) :
  shape x = [B; S; H; D] -> wf x ->
  (D mod 2 = 0)%nat -> 0 < base ->
  (0 < B)%nat -> (0 < S)%nat -> (0 < H)%nat ->
  exists out, apply_rope x (jnp.zeros [B; S]) base = Ok out /\
    shape out = shape x /\ data out = data x /\
    (dtype x = float32 -> out = x).
Proof.
  intros Hx Hwf Heven _ HB HS HH.
  destruct (apply_rope_ok x (jnp.zeros [B; S]) base B S H D
              Hx eq_refl Heven HB HS HH)
    as (out & Hout & Hd & Hs & Hw & Hrot).
  exists out. split; [exact Hout|]. split; [congruence|].
  assert (Hdata : data out = data x);
    [|split; [exact Hdata | intros Hx32; apply array_eq; congruence]].
  apply (pairs_ext out x B S H D Hw Hwf Hs Hx Heven).
  intros b s h k Hb Hs' Hh Hk.
  destruct (Hrot b s h k Hb Hs' Hh Hk) as [-> ->].
  unfold angle, jnp.zeros. rewrite get_full by (simpl; tauto).
  rewrite Rmult_0_l, cos_0, sin_0. split; ring.
Qed.

(** C6. Each rotated pair has the 2-norm of the pair it comes from. *)
Theorem apply_rope_preserves_pair_norm (x position : Array) (base : R)
    (B S H D : nat) :
  shape x = [B; S; H; D] -> shape position = [B; S] ->
  (D mod 2 = 0)%nat -> 0 < base ->
  (0 < B)%nat -> (0 < S)%nat -> (0 < H)%nat ->
  exists out, apply_rope x position base = Ok out /\
    forall b s h k,
      (b < B)%nat -> (s < S)%nat -> (h < H)%nat -> (k < D / 2)%nat ->
      (get out [b; s; h; (2 * k)%nat]) ^ 2
      + (get out [b; s; h; (2 * k + 1)%nat]) ^ 2 =
      (get x [b; s; h; (2 * k)%nat]) ^ 2
      + (get x [b; s; h; (2 * k + 1)%nat]) ^ 2.
Proof.
  intros Hx Hp Heven _ HB HS HH.
  destruct (apply_rope_ok x position base B S H D Hx Hp Heven HB HS HH)
    as (out & Hout & _ & _ & _ & Hrot).
  exists out. split; [exact Hout|].
  intros b s h k Hb Hs Hh Hk.
  destruct (Hrot b s h k Hb Hs Hh Hk) as [-> ->].
  set (f := angle position base D b s k).
  set (e := get x [b; s; h; (2 * k)%nat]).
  set (o := get x [b; s; h; (2 * k + 1)%nat]).
  pose proof (sin2_cos2 f) as Hsc. unfold Rsqr in Hsc.
  transitivity ((e ^ 2 + o ^ 2) * (sin f * sin f + cos f * cos f)); [ring|].
  rewrite Hsc. ring.
Qed.

Lemma angle_add (p q pq : Array) (base : R) (D b s k : nat) :
  get pq [b; s] = get p [b; s] + get q [b; s] ->
  angle pq base D b s k = angle p base D b s k + angle q base D b s k.
Proof. unfold angle. intros ->. ring. Qed.

Lemma sum_ext (f g : nat -> R) (n : nat) :
  (forall k, (k < n)%nat -> f k = g k) ->
  fold_right Rplus 0 (map f (seq 0 n)) = fold_right Rplus 0 (map g (seq 0 n)).
Proof.
  intros Hfg. f_equal. apply map_ext_in. intros k Hk.
  apply in_seq in Hk. apply Hfg. lia.
Qed.


(** ** The timescale vector *)

Section Timescale.

Lemma get_rope_power (head_dim k : nat) :
  (k < head_dim / 2)%nat ->
  get (rope_power head_dim) [k] = -2 * INR k / INR head_dim.
Proof.
  intros Hk. unfold get, rope_power. cbn [shape data jnp.true_divide_scalar
    jnp.scalar_multiply jnp.map_array jnp.arange ravel size].
  rewrite Nat.sub_0_r, !map_map.
  replace (k * 1 + 0)%nat with k by lia.
  rewrite (nth_indep _ 0 (-2 * INR 0 / INR head_dim))
    by (rewrite length_map, length_seq; exact Hk).
  rewrite (map_nth (fun i => -2 * INR i / INR head_dim)).
  rewrite seq_nth by exact Hk. reflexivity.
Qed.

Lemma exponent_decreasing (D j k : nat) :
  (0 < D)%nat -> (j < k)%nat ->
  -2 * INR k / INR D < -2 * INR j / INR D.
Proof.
  intros HD Hjk. apply lt_INR in HD, Hjk. simpl in HD.
  unfold Rdiv. apply Rmult_lt_compat_r; [apply Rinv_0_lt_compat; exact HD|].
  lra.
Qed.

Lemma exponent_nonpos (D k : nat) : -2 * INR k / INR D <= 0.
Proof.
  pose proof (pos_INR k) as Hk. pose proof (pos_INR D) as HD.
  destruct HD as [HD | <-].
  - unfold Rdiv. apply Rinv_0_lt_compat in HD. nra.
  - unfold Rdiv. rewrite Rinv_0. lra.
Qed.

Lemma Rpower_nonpos_le_1 (base e : R) : 1 < base -> e <= 0 -> Rpower base e <= 1.
Proof.
  intros Hb [He | ->].
  - left. rewrite <- (Rpower_O base) by lra. apply Rpower_lt; assumption.
  - right. apply Rpower_O. lra.
Qed.

(** For a negative exponent the power decreases as the base grows. *)
Lemma Rpower_base_decreasing (b1 b2 e : R) :
  0 < b1 -> b1 < b2 -> e < 0 -> Rpower b2 e < Rpower b1 e.
Proof.
  intros H1 H12 He. unfold Rpower. apply exp_increasing.
  pose proof (ln_increasing b1 b2 H1 H12). nra.
Qed.

End Timescale.

(** ** Element type of the result *)

(** ** The scenario of a quarter turn *)

Example apply_rope_quarter_turn :
  exists out,
    apply_rope (x_unit float32) position_quarter_turn _DEFAULT_BASE = Ok out /\
    shape out = [1; 1; 1; 2]%nat /\
    get out [0; 0; 0; 0]%nat = 0 /\ get out [0; 0; 0; 1]%nat = 1.
Proof.
  destruct (apply_rope_ok (x_unit float32) position_quarter_turn _DEFAULT_BASE
              1 1 1 2 eq_refl eq_refl eq_refl
              Nat.lt_0_1 Nat.lt_0_1 Nat.lt_0_1)
    as (out & Hout & _ & Hs & _ & Hrot).
  exists out. split; [exact Hout|]. split; [exact Hs|].
  destruct (Hrot 0%nat 0%nat 0%nat 0%nat Nat.lt_0_1 Nat.lt_0_1 Nat.lt_0_1
              Nat.lt_0_1) as [He Ho].
  cbn [Nat.mul Nat.add] in He, Ho. rewrite He, Ho.
  assert (Hf : angle position_quarter_turn _DEFAULT_BASE 2 0 0 0 = PI / 2).
  { unfold angle, get, position_quarter_turn, _DEFAULT_BASE. simpl.
    replace (-2 * 0 / (1 + 1)) with 0 by lra.
    rewrite Rpower_O by lra. lra. }
  rewrite Hf, cos_PI2, sin_PI2.
  unfold get, x_unit. simpl. lra.
Qed.

(** The partner of feature 0 is feature 1, its neighbour, and not feature
    2, the first of the second half: a quarter turn of plane 0 moves the
    unit from index 0 to index 1. *)
Example apply_rope_pairs_neighbours :
  exists out,
    apply_rope x_first_feature position_quarter_turn _DEFAULT_BASE = Ok out /\
    get out [0; 0; 0; 0]%nat = 0 /\ get out [0; 0; 0; 1]%nat = 1 /\
    get out [0; 0; 0; 2]%nat = 0 /\ get out [0; 0; 0; 3]%nat = 0.
Proof.
  destruct (apply_rope_ok x_first_feature position_quarter_turn _DEFAULT_BASE
              1 1 1 4 eq_refl eq_refl eq_refl
              Nat.lt_0_1 Nat.lt_0_1 Nat.lt_0_1)
    as (out & Hout & _ & _ & _ & Hrot).
  exists out. split; [exact Hout|].
  destruct (Hrot 0%nat 0%nat 0%nat 0%nat Nat.lt_0_1 Nat.lt_0_1 Nat.lt_0_1
              Nat.lt_0_2) as [H0 H1].
  destruct (Hrot 0%nat 0%nat 0%nat 1%nat Nat.lt_0_1 Nat.lt_0_1 Nat.lt_0_1
              Nat.lt_1_2) as [H2 H3].
  cbn [Nat.mul Nat.add] in H0, H1, H2, H3. rewrite H0, H1, H2, H3.
  assert (Hf : angle position_quarter_turn _DEFAULT_BASE 4 0 0 0 = PI / 2).
  { unfold angle, get, position_quarter_turn, _DEFAULT_BASE. simpl.
    replace (-2 * 0 / (1 + 1 + 1 + 1)) with 0 by lra.
    rewrite Rpower_O by lra. lra. }
  rewrite Hf, cos_PI2, sin_PI2.
  unfold get, x_first_feature. simpl. repeat split; lra.
Qed.

(** ** The properties on the sample inputs *)

Lemma apply_rope_zero_position_sample :
  exists out, apply_rope x_sample (jnp.zeros [1; 2]%nat) _DEFAULT_BASE = Ok out /\
    shape out = shape x_sample /\ data out = data x_sample /\
    (dtype x_sample = float32 -> out = x_sample).
Proof.
  apply (apply_rope_zero_position x_sample _DEFAULT_BASE 1 2 2 4);
    try reflexivity; try lia.
  unfold _DEFAULT_BASE. lra.
Defined.


Lemma apply_rope_preserves_pair_norm_sample :
  exists out, apply_rope x_sample position_sample _DEFAULT_BASE = Ok out /\
    forall b s h k,
      (b < 1)%nat -> (s < 2)%nat -> (h < 2)%nat -> (k < 4 / 2)%nat ->
      (get out [b; s; h; (2 * k)%nat]) ^ 2
      + (get out [b; s; h; (2 * k + 1)%nat]) ^ 2 =
      (get x_sample [b; s; h; (2 * k)%nat]) ^ 2
      + (get x_sample [b; s; h; (2 * k + 1)%nat]) ^ 2.
Proof.
  apply (apply_rope_preserves_pair_norm x_sample position_sample
           _DEFAULT_BASE 1 2 2 4);
    try reflexivity; try lia.
  unfold _DEFAULT_BASE. lra.
Defined.

(** ** The rotation under general broadcasting *)

Section Stacked.

(** An elementwise operation on two arrays with compatible shapes. *)
Lemma binop_ok (op : R -> R -> R) (a c : Array) (sh : list nat) :
  jnp.broadcast_shapes (shape a) (shape c) = Some sh ->
  exists r, jnp.binop op a c = Ok r /\ shape r = sh /\ wf r /\
    forall idx, in_range sh idx ->
      get r idx = op (get a (jnp.broadcast_index (shape a) idx))
                     (get c (jnp.broadcast_index (shape c) idx)).
Proof.
  intros Hb. unfold jnp.binop. rewrite Hb.
  eexists; split; [reflexivity|]. split; [reflexivity|].
  split; [apply wf_build|].
  intros idx Hidx. apply get_build. exact Hidx.
Qed.

Variables (x position freq freq' : Array) (base : R).
Variables (Bx Sx B S H D K : nat).
Hypothesis Hx : shape x = [Bx; Sx; H; D].
Hypothesis HD : D = (2 * K)%nat.
Hypothesis Hfreq : rope_freq position base D = Ok freq.
Hypothesis Hfreq' : jnp.newaxis_penultimate freq = Ok freq'.
Hypothesis Hwf : wf freq'.
Hypothesis Hbc :
  jnp.broadcast_shapes [Bx; Sx; H; K] (shape freq') = Some [B; S; H; K].
Hypothesis Hrx : forall b s, (b < B)%nat -> (s < S)%nat ->
  ((if (Bx =? 1)%nat then 0 else b) < Bx)%nat /\
  ((if (Sx =? 1)%nat then 0 else s) < Sx)%nat.
Hypothesis Hrf : forall b s h k,
  (b < B)%nat -> (s < S)%nat -> (h < H)%nat -> (k < K)%nat ->
  in_range (shape freq') (jnp.broadcast_index (shape freq') [b; s; h; k]).

(** The function returns the reshape of the stacked rotated components,
    each of which combines the entries of [x] and the angle found at the
    broadcast indices. *)
Lemma apply_rope_stacked :
  exists stacked,
    apply_rope x position base =
      jnp.reshape_infer_last
        (firstn (length (shape stacked) - 2) (shape stacked)) stacked /\
    shape stacked = [B; S; H; K; 2%nat] /\ wf stacked /\
    forall b s h k,
      (b < B)%nat -> (s < S)%nat -> (h < H)%nat -> (k < K)%nat ->
      let bx := if (Bx =? 1)%nat then 0%nat else b in
      let sx := if (Sx =? 1)%nat then 0%nat else s in
      let f := get freq' (jnp.broadcast_index (shape freq') [b; s; h; k]) in
      get stacked [b; s; h; k; 0%nat] =
        get x [bx; sx; h; (2 * k)%nat] * cos f
        - get x [bx; sx; h; (2 * k + 1)%nat] * sin f /\
      get stacked [b; s; h; k; 1%nat] =
        get x [bx; sx; h; (2 * k + 1)%nat] * cos f
        + get x [bx; sx; h; (2 * k)%nat] * sin f.
Proof.
  assert (Heven : (D mod 2 = 0)%nat).
  { rewrite HD, Nat.mul_comm. apply Nat.Div0.mod_mul. }
  unfold apply_rope, jnp.shape_last. rewrite Hx. cbn [rev app bind].
  rewrite Heven. cbn [Nat.eqb assert_ bind].
  rewrite Hfreq. cbn [bind]. rewrite Hfreq'. cbn [bind].
  destruct (slice_even_ok x Bx Sx H D K Hx HD)
    as (x_even & -> & _ & Hes & _ & Heg).
  destruct (slice_odd_ok x Bx Sx H D K Hx HD)
    as (x_odd & -> & _ & Hos & _ & Hog).
  cbn [bind]. unfold jnp.multiply, jnp.subtract, jnp.add.
  assert (Hsel : forall (a : Array) (g : nat -> nat),
            shape a = [Bx; Sx; H; K] ->
            (forall b s h k, (b < Bx)%nat -> (s < Sx)%nat -> (h < H)%nat ->
               (k < K)%nat -> get a [b; s; h; k] = get x [b; s; h; g k]) ->
            forall b s h k,
              (b < B)%nat -> (s < S)%nat -> (h < H)%nat -> (k < K)%nat ->
              get a (jnp.broadcast_index (shape a) [b; s; h; k]) =
              get x [if (Bx =? 1)%nat then 0%nat else b;
                     if (Sx =? 1)%nat then 0%nat else s; h; g k]).
  { intros a g Ha Hg b s h k Hb Hs Hh Hk. rewrite Ha.
    unfold jnp.broadcast_index.
    cbn [length Nat.sub skipn combine map fst snd].
    rewrite (broadcast_axis _ _ Hh), (broadcast_axis _ _ Hk).
    destruct (Hrx b s Hb Hs) as [Hb' Hs']. apply Hg; assumption. }
  assert (Htrig : forall (t : R -> R) (dt : DType) b s h k,
            (b < B)%nat -> (s < S)%nat -> (h < H)%nat -> (k < K)%nat ->
            get (jnp.map_array dt t freq')
                (jnp.broadcast_index (shape freq') [b; s; h; k]) =
            t (get freq' (jnp.broadcast_index (shape freq') [b; s; h; k]))).
  { intros t dt b s h k Hb Hs Hh Hk. apply get_map_array; [exact Hwf|].
    apply Hrf; assumption. }
  destruct (binop_ok Rmult x_even (jnp.cos freq') [B; S; H; K])
    as (ec & -> & Hecs & _ & Hecg); [rewrite Hes; exact Hbc|].
  destruct (binop_ok Rmult x_odd (jnp.sin freq') [B; S; H; K])
    as (os & -> & Hoss & _ & Hosg); [rewrite Hos; exact Hbc|].
  cbn [bind].
  destruct (binop_same Rminus ec os) as (ne & -> & _ & Hnes & _ & Hneg);
    [congruence|].
  destruct (binop_ok Rmult x_odd (jnp.cos freq') [B; S; H; K])
    as (oc & -> & Hocs & _ & Hocg); [rewrite Hos; exact Hbc|].
  destruct (binop_ok Rmult x_even (jnp.sin freq') [B; S; H; K])
    as (es & -> & Hess & _ & Hesg); [rewrite Hes; exact Hbc|].
  cbn [bind].
  destruct (binop_same Rplus oc es) as (no & -> & _ & Hnos & _ & Hnog);
    [congruence|].
  cbn [bind]. rewrite Hecs in Hnes, Hneg. rewrite Hocs in Hnos, Hnog.
  unfold jnp.stack_last. rewrite Hnes, Hnos.
  assert (Heq : jnp.shape_eqb [B; S; H; K] [B; S; H; K] = true)
    by (simpl; rewrite !Nat.eqb_refl; reflexivity).
  rewrite Heq. cbn [bind].
  eexists. split; [reflexivity|]. split; [reflexivity|].
  split; [apply wf_build|].
  intros b s h k Hb Hs Hh Hk.
  rewrite !get_build by (simpl; repeat split; lia).
  cbn [last removelast Nat.eqb].
  rewrite Hneg, Hnog by (simpl; tauto).
  rewrite Hecg, Hosg, Hocg, Hesg by (simpl; tauto).
  cbn [jnp.cos jnp.sin jnp.map_array shape].
  rewrite (Hsel x_even (fun k => (2 * k)%nat) Hes Heg) by assumption.
  rewrite (Hsel x_odd (fun k => (2 * k + 1)%nat) Hos Hog) by assumption.
  unfold jnp.cos, jnp.sin. rewrite !Htrig by assumption.
  cbv zeta. split; reflexivity.
Qed.

End Stacked.

(** ** The final reshape *)

Section Reshape.

Variables (stacked : Array) (B S H K : nat).
Hypothesis Hs : shape stacked = [B; S; H; K; 2%nat].
Hypothesis Hw : wf stacked.

Lemma reshape_pairs_ok :
  (0 < B)%nat -> (0 < S)%nat -> (0 < H)%nat ->
  exists out,
    jnp.reshape_infer_last
      (firstn (length (shape stacked) - 2) (shape stacked)) stacked = Ok out /\
    dtype out = dtype stacked /\
    shape out = [B; S; H; (2 * K)%nat] /\ wf out /\
    forall b s h k, (b < B)%nat -> (s < S)%nat -> (h < H)%nat -> (k < K)%nat ->
      get out [b; s; h; (2 * k)%nat] = get stacked [b; s; h; k; 0%nat] /\
      get out [b; s; h; (2 * k + 1)%nat] = get stacked [b; s; h; k; 1%nat].
Proof.
  intros HB HS HH. unfold jnp.reshape_infer_last. rewrite Hs.
  cbn [length Nat.sub firstn].
  destruct (merged_axis_length B S H K HB HS HH) as (Hdiv & Hmod & Hnz).
  rewrite Hdiv, Hmod.
  destruct (Nat.eqb_spec (size [B; S; H]) 0) as [E|_]; [contradiction|].
  cbn [Nat.eqb app]. eexists. split; [reflexivity|].
  split; [reflexivity|]. split; [reflexivity|].
  split; [unfold wf in *; cbn [data shape]; rewrite Hw, Hs; simpl; nia|].
  intros b s h k Hb Hs' Hh Hk. unfold get. cbn [shape data]. rewrite Hs.
  split; f_equal; simpl; nia.
Qed.

Lemma reshape_empty :
  (B = 0 \/ S = 0 \/ H = 0)%nat ->
  jnp.reshape_infer_last
    (firstn (length (shape stacked) - 2) (shape stacked)) stacked
  = Err ReshapeError.
Proof.
  intros Hempty. unfold jnp.reshape_infer_last. rewrite Hs.
  cbn [length Nat.sub firstn].
  assert (E : size [B; S; H] = 0%nat) by (simpl; nia).
  rewrite E. reflexivity.
Qed.

End Reshape.

(** ** Positions that broadcast to the batch and sequence axes *)

Section BroadcastAxes.

Lemma broadcast_rev_nil_r (r : list nat) : jnp.broadcast_rev r [] = Some r.
Proof. destruct r; reflexivity. Qed.

(** One more axis: the second operand has the same length or length 1. *)
Lemma broadcast_rev_cons (a b : nat) (r1 r2 r : list nat) :
  jnp.broadcast_rev r1 r2 = Some r -> b = a \/ b = 1%nat ->
  jnp.broadcast_rev (a :: r1) (b :: r2) = Some (a :: r).
Proof.
  intros Hr Hab. cbn [jnp.broadcast_rev]. rewrite Hr.
  destruct (Nat.eqb_spec a b) as [E|E]; [reflexivity|].
  destruct (Nat.eqb_spec a 1) as [E1|E1]; [f_equal; f_equal; lia|].
  destruct (Nat.eqb_spec b 1) as [E2|E2]; [reflexivity | lia].
Qed.

(** One more axis: the first operand has length 1. *)
Lemma broadcast_rev_cons_unit (b : nat) (r1 r2 r : list nat) :
  jnp.broadcast_rev r1 r2 = Some r ->
  jnp.broadcast_rev (1%nat :: r1) (b :: r2) = Some (b :: r).
Proof.
  intros Hr. cbn [jnp.broadcast_rev]. rewrite Hr.
  destruct (Nat.eqb_spec 1 b) as [<-|E]; reflexivity.
Qed.

Lemma broadcast_rev_length (r1 r2 r : list nat) :
  jnp.broadcast_rev r1 r2 = Some r ->
  length r = Nat.max (length r1) (length r2).
Proof.
  revert r2 r; induction r1 as [|a r1 IH]; intros r2 r Hr.
  - simpl in Hr. injection Hr as <-. reflexivity.
  - destruct r2 as [|b r2].
    + simpl in Hr. injection Hr as <-. reflexivity.
    + cbn [jnp.broadcast_rev] in Hr.
      destruct (jnp.broadcast_rev r1 r2) as [r'|] eqn:E; [|discriminate].
      specialize (IH _ _ E).
      destruct (a =? b)%nat; [injection Hr as <-; simpl; lia|].
      destruct (a =? 1)%nat; [injection Hr as <-; simpl; lia|].
      destruct (b =? 1)%nat; [injection Hr as <-; simpl; lia|discriminate].
Qed.

(** An axis of the operand against the axis of the result. *)
Lemma broadcast_rev_axis (a b : nat) (r1 r2 r : list nat) :
  jnp.broadcast_rev (a :: r1) (b :: r2) = Some (a :: r) ->
  jnp.broadcast_rev r1 r2 = Some r /\ (b = a \/ b = 1%nat).
Proof.
  cbn [jnp.broadcast_rev].
  destruct (jnp.broadcast_rev r1 r2) as [r'|]; [|discriminate].
  destruct (Nat.eqb_spec a b) as [E|E];
    [intros Hr; injection Hr as <-; auto|].
  destruct (Nat.eqb_spec a 1) as [E1|E1];
    [intros Hr; injection Hr as <- <-; split; [reflexivity | lia]|].
  destruct (Nat.eqb_spec b 1) as [E2|E2];
    [intros Hr; injection Hr as <-; auto | discriminate].
Qed.

Lemma broadcast_axis_lt (a n i : nat) :
  a = n \/ a = 1%nat -> (i < n)%nat ->
  ((if (a =? 1)%nat then 0 else i) < a)%nat.
Proof. intros [-> | ->] Hi; destruct (Nat.eqb_spec n 1); simpl; lia. Qed.

End BroadcastAxes.

Section BroadcastPosition.

Variables (position : Array) (base : R) (B S H D : nat).
Hypothesis Hpb :
  jnp.broadcast_shapes [B; S] (shape position) = Some [B; S].

(** The shape of [position] is (), (S) or (1), or (B, S) with B or S
    possibly replaced by 1. *)
Lemma broadcastable_position :
  shape position = [] \/
  (exists a, shape position = [a] /\ (a = S \/ a = 1%nat)) \/
  (exists a b, shape position = [a; b] /\
     (a = B \/ a = 1%nat) /\ (b = S \/ b = 1%nat)).
Proof.
  unfold jnp.broadcast_shapes in Hpb. cbn [rev app] in Hpb.
  destruct (jnp.broadcast_rev [S; B] (rev (shape position))) as [r|] eqn:E;
    [|discriminate].
  cbn [option_map] in Hpb. injection Hpb as Hr.
  assert (Er : r = [S; B]).
  { rewrite <- (rev_involutive r), Hr. reflexivity. }
  subst r. clear Hr.
  pose proof (broadcast_rev_length _ _ _ E) as Hlen.
  cbn [length] in Hlen.
  rewrite <- (rev_involutive (shape position)).
  destruct (rev (shape position)) as [|b [|a [|c r]]];
    cbn [length] in Hlen; [| | |lia].
  - left. reflexivity.
  - right; left. exists b. split; [reflexivity|].
    apply broadcast_rev_axis in E. tauto.
  - right; right. exists a, b. split; [reflexivity|].
    apply broadcast_rev_axis in E. destruct E as [E Hb].
    apply broadcast_rev_axis in E. tauto.
Qed.

Lemma freq_broadcast_ok :
  exists freq freq',
    rope_freq position base D = Ok freq /\
    jnp.newaxis_penultimate freq = Ok freq' /\ wf freq' /\
    jnp.broadcast_shapes [B; S; H; (D / 2)%nat] (shape freq')
      = Some [B; S; H; (D / 2)%nat] /\
    forall b s h k,
      (b < B)%nat -> (s < S)%nat -> (h < H)%nat -> (k < D / 2)%nat ->
      in_range (shape freq') (jnp.broadcast_index (shape freq') [b; s; h; k]) /\
      get freq' (jnp.broadcast_index (shape freq') [b; s; h; k]) =
        get position (jnp.broadcast_index (shape position) [b; s])
        * Rpower base (-2 * INR k / INR D).
Proof.
  pose proof (get_rope_timescale base D) as Hts.
  pose proof (shape_rope_timescale base D) as Hss.
  unfold rope_freq, jnp.multiply, jnp.binop. rewrite Hss.
  remember (D / 2)%nat as K eqn:HK. clear HK.
  remember (rope_timescale base D) as ts eqn:Ets. clear Ets.
  cbn [jnp.newaxis_last shape].
  assert (HKK : forall r, (if (1 =? K)%nat then Some (1%nat :: r)
                           else Some (K :: r)) = Some (K :: r)).
  { intros r. destruct (Nat.eqb_spec 1 K) as [<-|]; reflexivity. }
  destruct broadcastable_position
    as [Hp | [(a & Hp & Ha) | (a & b & Hp & Ha & Hb)]]; rewrite Hp.
  - (* a scalar position *)
    assert (Hbf : jnp.broadcast_shapes [1%nat] [K] = Some [K]).
    { unfold jnp.broadcast_shapes.
      cbn [rev app jnp.broadcast_rev Nat.eqb]. rewrite HKK. reflexivity. }
    cbn [app]. rewrite Hbf. clear Hbf.
    eexists; eexists. split; [reflexivity|].
    unfold jnp.newaxis_penultimate. cbn [build shape rev app dtype data].
    split; [reflexivity|].
    split; [unfold wf; cbn [data shape]; rewrite length_tabulate; simpl; lia|].
    cbn [shape]. split.
    { unfold jnp.broadcast_shapes.
      cbn [rev app jnp.broadcast_rev]. rewrite !Nat.eqb_refl.
      destruct (Nat.eqb_spec H 1) as [->|]; reflexivity. }
    intros i s h k Hi Hs Hh Hk. unfold jnp.broadcast_index.
    cbn [length Nat.sub skipn combine map fst snd Nat.eqb].
    rewrite (broadcast_axis _ _ Hk). split; [simpl; lia|].
    unfold get at 1. cbn [shape data ravel size].
    replace (0 * (K * 1) + (k * 1 + 0))%nat with (ravel [K] [k])
      by (simpl; lia).
    rewrite nth_tabulate by (simpl; lia).
    cbn [length Nat.sub skipn combine map fst snd Nat.eqb].
    rewrite (broadcast_axis _ _ Hk), (Hts k Hk).
    f_equal. unfold get, jnp.newaxis_last. cbn [shape data]. rewrite Hp.
    reflexivity.
  - (* one position per sequence index *)
    assert (Hbf : jnp.broadcast_shapes [a; 1%nat] [K] = Some [a; K]).
    { unfold jnp.broadcast_shapes.
      cbn [rev app jnp.broadcast_rev Nat.eqb]. rewrite HKK. reflexivity. }
    cbn [app]. rewrite Hbf. clear Hbf.
    eexists; eexists. split; [reflexivity|].
    unfold jnp.newaxis_penultimate. cbn [build shape rev app dtype data].
    split; [reflexivity|].
    split; [unfold wf; cbn [data shape]; rewrite length_tabulate; simpl; lia|].
    cbn [shape]. split.
    { unfold jnp.broadcast_shapes. cbn [rev app].
      replace (jnp.broadcast_rev [K; H; S; B] [K; 1%nat; a])
        with (Some [K; H; S; B]); [reflexivity|].
      symmetry. repeat (apply broadcast_rev_cons; [|auto]).
      apply broadcast_rev_nil_r. }
    intros i s h k Hi Hs Hh Hk. unfold jnp.broadcast_index.
    cbn [length Nat.sub skipn combine map fst snd Nat.eqb].
    rewrite (broadcast_axis _ _ Hk).
    pose proof (broadcast_axis_lt a S s Ha Hs) as Hs'.
    set (s' := if (a =? 1)%nat then 0%nat else s) in *.
    split; [simpl; lia|].
    unfold get at 1. cbn [shape data ravel size].
    replace (s' * (1 * (K * 1)) + (0 * (K * 1) + (k * 1 + 0)))%nat
      with (ravel [a; K] [s'; k]) by (simpl; lia).
    rewrite nth_tabulate by (simpl; lia).
    cbn [length Nat.sub skipn combine map fst snd Nat.eqb].
    rewrite (broadcast_axis _ _ Hk), (broadcast_axis _ _ Hs'), (Hts k Hk).
    f_equal. unfold get, jnp.newaxis_last. cbn [shape data]. rewrite Hp.
    f_equal; try (simpl; lia).
  - (* one position per batch and sequence index *)
    assert (Hbf : jnp.broadcast_shapes [a; b; 1%nat] [K] = Some [a; b; K]).
    { unfold jnp.broadcast_shapes.
      cbn [rev app jnp.broadcast_rev Nat.eqb]. rewrite HKK. reflexivity. }
    cbn [app]. rewrite Hbf. clear Hbf.
    eexists; eexists. split; [reflexivity|].
    unfold jnp.newaxis_penultimate. cbn [build shape rev app dtype data].
    split; [reflexivity|].
    split; [unfold wf; cbn [data shape]; rewrite length_tabulate; simpl; lia|].
    cbn [shape]. split.
    { unfold jnp.broadcast_shapes. cbn [rev app].
      replace (jnp.broadcast_rev [K; H; S; B] [K; 1%nat; b; a])
        with (Some [K; H; S; B]); [reflexivity|].
      symmetry. repeat (apply broadcast_rev_cons; [|auto]).
      reflexivity. }
    intros i s h k Hi Hs Hh Hk. unfold jnp.broadcast_index.
    cbn [length Nat.sub skipn combine map fst snd Nat.eqb].
    rewrite (broadcast_axis _ _ Hk).
    pose proof (broadcast_axis_lt a B i Ha Hi) as Hi'.
    pose proof (broadcast_axis_lt b S s Hb Hs) as Hs'.
    set (i' := if (a =? 1)%nat then 0%nat else i) in *.
    set (s' := if (b =? 1)%nat then 0%nat else s) in *.
    split; [simpl; lia|].
    unfold get at 1. cbn [shape data ravel size].
    replace (i' * (b * (1 * (K * 1)))
             + (s' * (1 * (K * 1)) + (0 * (K * 1) + (k * 1 + 0))))%nat
      with (ravel [a; b; K] [i'; s'; k]) by (simpl; lia).
    rewrite nth_tabulate by (simpl; lia).
    cbn [length Nat.sub skipn combine map fst snd Nat.eqb].
    rewrite (broadcast_axis _ _ Hk), (broadcast_axis _ _ Hs'),
      (broadcast_axis _ _ Hi'), (Hts k Hk).
    f_equal. unfold get, jnp.newaxis_last. cbn [shape data]. rewrite Hp.
    f_equal; try (simpl; lia).
Qed.

End BroadcastPosition.

(** X1. A position array of any shape that broadcasts to (B, S) is
    accepted: (B, S), (1, S), (B, 1), (1, 1), (S), (1) or a scalar.  The
    pair of plane [k] at [(b, s, h)] is rotated by the position found at the
    broadcast of [(b, s)], times [base^(-2k/D)]. *)
Theorem apply_rope_broadcasts_position (x position : Array) (base : R)
    (B S H D : nat) :
  shape x = [B; S; H; D] ->
  jnp.broadcast_shapes [B; S] (shape position) = Some [B; S] ->
  (D mod 2 = 0)%nat -> 0 < base ->
  (0 < B)%nat -> (0 < S)%nat -> (0 < H)%nat ->
  exists out, apply_rope x position base = Ok out /\
    shape out = [B; S; H; D] /\
    forall b s h k,
      (b < B)%nat -> (s < S)%nat -> (h < H)%nat -> (k < D / 2)%nat ->
      let f := get position (jnp.broadcast_index (shape position) [b; s])
               * Rpower base (-2 * INR k / INR D) in
      get out [b; s; h; (2 * k)%nat] =
        get x [b; s; h; (2 * k)%nat] * cos f
        - get x [b; s; h; (2 * k + 1)%nat] * sin f /\
      get out [b; s; h; (2 * k + 1)%nat] =
        get x [b; s; h; (2 * k + 1)%nat] * cos f
        + get x [b; s; h; (2 * k)%nat] * sin f.
Proof.
  intros Hx Hpb Heven _ HB HS HH.
  assert (HD : D = (2 * (D / 2))%nat)
    by (apply Nat.Div0.div_exact; exact Heven).
  destruct (freq_broadcast_ok position base B S H D Hpb)
    as (freq & freq' & Hfreq & Hfreq' & Hwf & Hbc & Hf).
  destruct (apply_rope_stacked x position freq freq' base B S B S H D (D / 2)
              Hx HD Hfreq Hfreq' Hwf Hbc)
    as (stacked & -> & Hss & Hsw & Hsg).
  { intros b s Hb Hs. rewrite !broadcast_axis by assumption. tauto. }
  { intros b s h k Hb Hs Hh Hk. apply Hf; assumption. }
  destruct (reshape_pairs_ok stacked B S H (D / 2) Hss Hsw HB HS HH)
    as (out & Hout & _ & Hos & _ & Hog).
  exists out. split; [exact Hout|]. split; [rewrite Hos, <- HD; reflexivity|].
  intros b s h k Hb Hs Hh Hk.
  destruct (Hog b s h k Hb Hs Hh Hk) as [-> ->].
  destruct (Hsg b s h k Hb Hs Hh Hk) as [He Ho]. cbv zeta in He, Ho.
  rewrite !broadcast_axis in He, Ho by assumption.
  destruct (Hf b s h k Hb Hs Hh Hk) as [_ Hfk]. rewrite Hfk in He, Ho.
  cbv zeta. split; assumption.
Qed.

(** An axis of [x] of length 1 against an axis of the positions. *)
Lemma broadcast_rev_cons_into (a n : nat) (r1 r2 r : list nat) :
  jnp.broadcast_rev r1 r2 = Some r -> a = n \/ a = 1%nat ->
  jnp.broadcast_rev (a :: r1) (n :: r2) = Some (n :: r).
Proof.
  intros Hr [-> | ->].
  - apply broadcast_rev_cons; auto.
  - apply broadcast_rev_cons_unit. exact Hr.
Qed.

(** X2. An input whose batch or sequence axis has length 1 is broadcast
    against a position array of shape (B, S): the result has shape
    (B, S, H, D), and its entries at [(b, s, h)] are those of [x] at batch 0
    (or sequence index 0) rotated by the angle of [(b, s)]. *)
Theorem apply_rope_broadcasts_input (x position : Array) (base : R)
    (Bx Sx B S H D : nat) :
  shape x = [Bx; Sx; H; D] -> shape position = [B; S] ->
  Bx = B \/ Bx = 1%nat -> Sx = S \/ Sx = 1%nat ->
  (D mod 2 = 0)%nat -> 0 < base ->
  (0 < B)%nat -> (0 < S)%nat -> (0 < H)%nat ->
  exists out, apply_rope x position base = Ok out /\
    shape out = [B; S; H; D] /\
    forall b s h k,
      (b < B)%nat -> (s < S)%nat -> (h < H)%nat -> (k < D / 2)%nat ->
      let bx := if (Bx =? 1)%nat then 0%nat else b in
      let sx := if (Sx =? 1)%nat then 0%nat else s in
      let f := get position [b; s] * Rpower base (-2 * INR k / INR D) in
      get out [b; s; h; (2 * k)%nat] =
        get x [bx; sx; h; (2 * k)%nat] * cos f
        - get x [bx; sx; h; (2 * k + 1)%nat] * sin f /\
      get out [b; s; h; (2 * k + 1)%nat] =
        get x [bx; sx; h; (2 * k + 1)%nat] * cos f
        + get x [bx; sx; h; (2 * k)%nat] * sin f.
Proof.
  intros Hx Hp HBx HSx Heven _ HB HS HH.
  assert (HD : D = (2 * (D / 2))%nat)
    by (apply Nat.Div0.div_exact; exact Heven).
  destruct (freq_broadcast_ok position base B S H D)
    as (freq & freq' & Hfreq & Hfreq' & Hwf & Hbc & Hf).
  { rewrite Hp. apply broadcast_shapes_same. }
  assert (Hfs : shape freq' = [B; S; 1%nat; (D / 2)%nat]).
  { destruct (rope_freq_ok position base D B S Hp)
      as (freq0 & Hfreq0 & _ & Hs0 & _).
    rewrite Hfreq0 in Hfreq. injection Hfreq as ->.
    unfold jnp.newaxis_penultimate in Hfreq'. rewrite Hs0 in Hfreq'.
    cbn [rev app] in Hfreq'. injection Hfreq' as <-. reflexivity. }
  destruct (apply_rope_stacked x position freq freq' base Bx Sx B S H D (D / 2)
              Hx HD Hfreq Hfreq' Hwf)
    as (stacked & -> & Hss & Hsw & Hsg).
  { rewrite Hfs. unfold jnp.broadcast_shapes. cbn [rev app].
    replace (jnp.broadcast_rev [(D / 2)%nat; H; Sx; Bx]
               [(D / 2)%nat; 1%nat; S; B])
      with (Some [(D / 2)%nat; H; S; B]); [reflexivity|].
    symmetry. do 2 (apply broadcast_rev_cons; [|auto]).
    do 2 (apply broadcast_rev_cons_into; [|assumption]). reflexivity. }
  { intros b s Hb Hs. split;
      [apply (broadcast_axis_lt Bx B) | apply (broadcast_axis_lt Sx S)];
      assumption. }
  { intros b s h k Hb Hs Hh Hk. apply Hf; assumption. }
  destruct (reshape_pairs_ok stacked B S H (D / 2) Hss Hsw HB HS HH)
    as (out & Hout & _ & Hos & _ & Hog).
  exists out. split; [exact Hout|]. split; [rewrite Hos, <- HD; reflexivity|].
  intros b s h k Hb Hs Hh Hk.
  destruct (Hog b s h k Hb Hs Hh Hk) as [-> ->].
  destruct (Hsg b s h k Hb Hs Hh Hk) as [He Ho]. cbv zeta in He, Ho.
  destruct (Hf b s h k Hb Hs Hh Hk) as [_ Hfk]. rewrite Hfk in He, Ho.
  rewrite Hp, broadcast_index_same in He, Ho by (simpl; tauto).
  cbv zeta. split; assumption.
Qed.

(** ** Which inputs are accepted *)

Lemma apply_rope_odd (x position : Array) (base : R) (r : list nat) (D : nat) :
  rev (shape x) = D :: r -> (D mod 2 <> 0)%nat ->
  apply_rope x position base = Err AssertionError.
Proof.
  intros Hrev Hodd. unfold apply_rope, jnp.shape_last. rewrite Hrev.
  cbn [bind]. destruct (Nat.eqb_spec (D mod 2) 0) as [E|_]; [contradiction|].
  reflexivity.
Qed.

(** X3. On an input of shape (B, S, H, D) with positions of shape (B, S)
    the function returns an array exactly when D is even and none of the
    batch, sequence and head axes is empty; on an empty one with D even it
    fails in the final reshape, whose last axis cannot be inferred. *)
Theorem apply_rope_returns_iff (x position : Array) (base : R)
    (B S H D : nat) :
  shape x = [B; S; H; D] -> shape position = [B; S] ->
  ((exists out, apply_rope x position base = Ok out) <->
   (D mod 2 = 0 /\ 0 < B /\ 0 < S /\ 0 < H)%nat) /\
  ((D mod 2 = 0)%nat -> (B = 0 \/ S = 0 \/ H = 0)%nat ->
   apply_rope x position base = Err ReshapeError).
Proof.
  intros Hx Hp.
  assert (Hempty : (D mod 2 = 0)%nat -> (B = 0 \/ S = 0 \/ H = 0)%nat ->
                   apply_rope x position base = Err ReshapeError).
  { intros Heven Hz.
    assert (HD : D = (2 * (D / 2))%nat)
      by (apply Nat.Div0.div_exact; exact Heven).
    destruct (freq_broadcast_ok position base B S H D)
      as (freq & freq' & Hfreq & Hfreq' & Hwf & Hbc & Hf).
    { rewrite Hp. apply broadcast_shapes_same. }
    destruct (apply_rope_stacked x position freq freq' base B S B S H D
                (D / 2) Hx HD Hfreq Hfreq' Hwf Hbc)
      as (stacked & -> & Hss & Hsw & _).
    { intros b s Hb Hs. rewrite !broadcast_axis by assumption. tauto. }
    { intros b s h k Hb Hs Hh Hk. apply Hf; assumption. }
    apply (reshape_empty stacked B S H (D / 2) Hss Hz). }
  split; [|exact Hempty]. split.
  - intros [out Hout].
    destruct (Nat.eq_dec (D mod 2) 0) as [Heven|Hodd].
    + split; [exact Heven|].
      destruct (Nat.eq_dec B 0) as [EB|NB];
        [rewrite Hempty in Hout by auto; discriminate|].
      destruct (Nat.eq_dec S 0) as [ES|NS];
        [rewrite Hempty in Hout by auto; discriminate|].
      destruct (Nat.eq_dec H 0) as [EH|NH];
        [rewrite Hempty in Hout by auto; discriminate|].
      lia.
    + rewrite (apply_rope_odd x position base [H; S; B] D) in Hout;
        [discriminate | rewrite Hx; reflexivity | exact Hodd].
  - intros (Heven & HB & HS & HH).
    destruct (apply_rope_ok x position base B S H D Hx Hp Heven HB HS HH)
      as (out & Hout & _).
    exists out. exact Hout.
Qed.

(** X5. Positions of shape (a, b) with an axis that neither matches the
    corresponding axis of [x] nor has length 1 (nor meets an axis of [x] of
    length 1) make the function fail with the library's broadcast error,
    at the first product with the cosines. *)
Theorem apply_rope_incompatible_position (x position : Array) (base : R)
    (B S H D a b : nat) :
  shape x = [B; S; H; D] -> shape position = [a; b] ->
  (D mod 2 = 0)%nat ->
  (a <> B /\ a <> 1 /\ B <> 1)%nat \/ (b <> S /\ b <> 1 /\ S <> 1)%nat ->
  apply_rope x position base = Err BroadcastError.
Proof.
  intros Hx Hp Heven Hbad.
  assert (HD : D = (2 * (D / 2))%nat)
    by (apply Nat.Div0.div_exact; exact Heven).
  unfold apply_rope, jnp.shape_last. rewrite Hx. cbn [rev app bind].
  rewrite Heven. cbn [Nat.eqb assert_ bind].
  destruct (rope_freq_ok position base D a b Hp)
    as (freq & -> & _ & Hfs & _).
  cbn [bind]. unfold jnp.newaxis_penultimate. rewrite Hfs.
  cbn [rev app bind].
  destruct (slice_even_ok x B S H D (D / 2) Hx HD) as (x_even & -> & _ & Hes & _).
  destruct (slice_odd_ok x B S H D (D / 2) Hx HD) as (x_odd & -> & _ & Hos & _).
  cbn [bind]. unfold jnp.multiply at 1. unfold jnp.binop at 1.
  rewrite Hes. cbn [jnp.cos jnp.map_array shape].
  assert (Hnone : jnp.broadcast_shapes [B; S; H; (D / 2)%nat]
                    [a; b; 1%nat; (D / 2)%nat] = None).
  { unfold jnp.broadcast_shapes. cbn [rev app jnp.broadcast_rev].
    destruct (Nat.eqb_spec B a), (Nat.eqb_spec B 1), (Nat.eqb_spec a 1),
      (Nat.eqb_spec S b), (Nat.eqb_spec S 1), (Nat.eqb_spec b 1);
      try reflexivity; lia. }
  rewrite Hnone. reflexivity.
Qed.

Section IndexFailure.

Lemma binop_error (op : R -> R -> R) (a b : Array) (e : error) :
  jnp.binop op a b = Err e -> e = BroadcastError.
Proof.
  unfold jnp.binop. destruct (jnp.broadcast_shapes _ _); [discriminate|].
  intros E. injection E as <-. reflexivity.
Qed.

Lemma stack_last_error (a b : Array) (e : error) :
  jnp.stack_last a b = Err e -> e = BroadcastError.
Proof.
  unfold jnp.stack_last. destruct (jnp.shape_eqb _ _); [discriminate|].
  intros E. injection E as <-. reflexivity.
Qed.

Lemma reshape_infer_last_error (lead : list nat) (a : Array) (e : error) :
  jnp.reshape_infer_last lead a = Err e -> e = ReshapeError.
Proof.
  unfold jnp.reshape_infer_last.
  destruct (_ =? _)%nat; [intros E; injection E as <-; reflexivity|].
  destruct (_ =? _)%nat; [discriminate|].
  intros E. injection E as <-. reflexivity.
Qed.

(** The angles always have at least the axis of the planes. *)
Lemma rope_freq_rank (position freq : Array) (base : R) (head_dim : nat) :
  rope_freq position base head_dim = Ok freq ->
  exists d r, rev (shape freq) = d :: r.
Proof.
  unfold rope_freq, jnp.multiply, jnp.binop, jnp.broadcast_shapes.
  destruct (jnp.broadcast_rev _ _) as [r|] eqn:E; [|discriminate].
  cbn [option_map]. intros Hf. injection Hf as <-.
  cbn [build shape]. rewrite rev_involutive.
  apply broadcast_rev_length in E.
  rewrite shape_rope_timescale in E. cbn [rev app length] in E.
  destruct r as [|d r]; [simpl in E; lia|].
  exists d, r. reflexivity.
Qed.

End IndexFailure.

(** X4. The function fails with an index error exactly when [x] has rank
    0 (it has no last dimension to read); no later step indexes out of
    range, whatever [position] is. *)
Theorem apply_rope_index_error (x position : Array) (base : R) :
  apply_rope x position base = Err IndexError <-> shape x = [].
Proof.
  unfold apply_rope, jnp.shape_last. split.
  - destruct (rev (shape x)) as [|D r] eqn:Hrev.
    + intros _. rewrite <- (rev_involutive (shape x)), Hrev. reflexivity.
    + cbn [bind]. intros Hfail. exfalso. revert Hfail.
      destruct (D mod 2 =? 0)%nat; cbn [assert_ bind]; [|discriminate].
      destruct (rope_freq position base D) as [freq|e] eqn:Ef; cbn [bind].
      2:{ apply binop_error in Ef. subst e. discriminate. }
      destruct (rope_freq_rank _ _ _ _ Ef) as (d & rf & Hrf).
      unfold jnp.newaxis_penultimate, jnp.slice_last.
      rewrite Hrf, Hrev. cbn [bind].
      unfold jnp.multiply, jnp.subtract, jnp.add.
      repeat match goal with
      | |- bind (jnp.binop ?op ?a ?b) _ = _ -> False =>
          let E := fresh "E" in
          destruct (jnp.binop op a b) as [?|?] eqn:E; cbn [bind];
          [|apply binop_error in E; subst; discriminate]
      end.
      match goal with
      | |- bind (jnp.stack_last ?a ?b) _ = _ -> False =>
          let E := fresh "E" in
          destruct (jnp.stack_last a b) as [?|?] eqn:E; cbn [bind];
          [|apply stack_last_error in E; subst; discriminate]
      end.
      intros Hfail. apply reshape_infer_last_error in Hfail. discriminate.
  - intros ->. reflexivity.
Qed.

(** ** Linear and metric structure *)

Lemma plane_bounds (D k : nat) :
  (k < D / 2)%nat -> (2 * k + 1 < D)%nat.
Proof.
  intros Hk. pose proof (Nat.div_mod_eq D 2) as ED. lia.
Qed.

(** X6. Two inputs rotated at the same positions keep their dot product
    over the last axis, at every batch, sequence index and head; in
    particular the norm of every head vector is kept. *)
Theorem apply_rope_preserves_dot (x y p : Array) (base : R) (B S H D : nat) :
  shape x = [B; S; H; D] -> shape y = [B; S; H; D] -> shape p = [B; S] ->
  (D mod 2 = 0)%nat -> 0 < base ->
  (0 < B)%nat -> (0 < S)%nat -> (0 < H)%nat ->
  exists rx ry,
    apply_rope x p base = Ok rx /\ apply_rope y p base = Ok ry /\
    forall b s h, (b < B)%nat -> (s < S)%nat -> (h < H)%nat ->
      dot_last D rx ry [b; s; h] = dot_last D x y [b; s; h].
Proof.
  intros Hx Hy Hp Heven _ HB HS HH.
  destruct (apply_rope_ok x p base B S H D Hx Hp Heven HB HS HH)
    as (rx & Hrx & _ & _ & _ & Hxrot).
  destruct (apply_rope_ok y p base B S H D Hy Hp Heven HB HS HH)
    as (ry & Hry & _ & _ & _ & Hyrot).
  exists rx, ry. split; [exact Hrx|]. split; [exact Hry|].
  intros b s h Hb Hs Hh. unfold dot_last. cbn [app].
  assert (HD : D = (2 * (D / 2))%nat)
    by (apply Nat.Div0.div_exact; exact Heven).
  remember (D / 2)%nat as K eqn:HK. rewrite HD, !sum_by_pairs.
  apply sum_ext. intros k Hk. rewrite HK in Hk.
  destruct (Hxrot b s h k Hb Hs Hh Hk) as [-> ->].
  destruct (Hyrot b s h k Hb Hs Hh Hk) as [-> ->].
  set (f := angle p base D b s k).
  pose proof (sin2_cos2 f) as Hsc. unfold Rsqr in Hsc.
  match goal with
  | |- _ = ?rhs =>
      transitivity (rhs * (sin f * sin f + cos f * cos f)); [ring|]
  end.
  rewrite Hsc. ring.
Qed.


(** ** The further properties on the sample inputs *)

Lemma apply_rope_broadcasts_position_sample :
  exists out, apply_rope x_sample position_row _DEFAULT_BASE = Ok out /\
    shape out = [1; 2; 2; 4]%nat /\
    forall b s h k,
      (b < 1)%nat -> (s < 2)%nat -> (h < 2)%nat -> (k < 4 / 2)%nat ->
      let f := get position_row (jnp.broadcast_index [2%nat] [b; s])
               * Rpower _DEFAULT_BASE (-2 * INR k / INR 4) in
      get out [b; s; h; (2 * k)%nat] =
        get x_sample [b; s; h; (2 * k)%nat] * cos f
        - get x_sample [b; s; h; (2 * k + 1)%nat] * sin f /\
      get out [b; s; h; (2 * k + 1)%nat] =
        get x_sample [b; s; h; (2 * k + 1)%nat] * cos f
        + get x_sample [b; s; h; (2 * k)%nat] * sin f.
Proof.
  apply (apply_rope_broadcasts_position x_sample position_row _DEFAULT_BASE
           1 2 2 4);
    try reflexivity; try lia.
  unfold _DEFAULT_BASE. lra.
Defined.

Lemma apply_rope_broadcasts_input_sample :
  exists out, apply_rope x_sample position_batches _DEFAULT_BASE = Ok out /\
    shape out = [3; 2; 2; 4]%nat /\
    forall b s h k,
      (b < 3)%nat -> (s < 2)%nat -> (h < 2)%nat -> (k < 4 / 2)%nat ->
      let bx := if (1 =? 1)%nat then 0%nat else b in
      let sx := if (2 =? 1)%nat then 0%nat else s in
      let f := get position_batches [b; s]
               * Rpower _DEFAULT_BASE (-2 * INR k / INR 4) in
      get out [b; s; h; (2 * k)%nat] =
        get x_sample [bx; sx; h; (2 * k)%nat] * cos f
        - get x_sample [bx; sx; h; (2 * k + 1)%nat] * sin f /\
      get out [b; s; h; (2 * k + 1)%nat] =
        get x_sample [bx; sx; h; (2 * k + 1)%nat] * cos f
        + get x_sample [bx; sx; h; (2 * k)%nat] * sin f.
Proof.
  apply (apply_rope_broadcasts_input x_sample position_batches _DEFAULT_BASE
           1 2 3 2 2 4);
    try reflexivity; try lia; try (right; reflexivity);
    try (left; reflexivity).
  unfold _DEFAULT_BASE. lra.
Defined.

Lemma apply_rope_returns_iff_sample :
  ((exists out, apply_rope x_sample position_sample _DEFAULT_BASE = Ok out) <->
   (4 mod 2 = 0 /\ 0 < 1 /\ 0 < 2 /\ 0 < 2)%nat) /\
  ((4 mod 2 = 0)%nat -> (1 = 0 \/ 2 = 0 \/ 2 = 0)%nat ->
   apply_rope x_sample position_sample _DEFAULT_BASE = Err ReshapeError).
Proof.
  apply (apply_rope_returns_iff x_sample position_sample _DEFAULT_BASE
           1 2 2 4); reflexivity.
Defined.

Lemma apply_rope_incompatible_position_sample :
  apply_rope x_sample position_long _DEFAULT_BASE = Err BroadcastError.
Proof.
  apply (apply_rope_incompatible_position x_sample position_long _DEFAULT_BASE
           1 2 2 4 1 3);
    try reflexivity.
  right. lia.
Defined.

Lemma apply_rope_preserves_dot_sample :
  exists rx ry,
    apply_rope x_sample position_sample _DEFAULT_BASE = Ok rx /\
    apply_rope y_sample position_sample _DEFAULT_BASE = Ok ry /\
    forall b s h, (b < 1)%nat -> (s < 2)%nat -> (h < 2)%nat ->
      dot_last 4 rx ry [b; s; h] = dot_last 4 x_sample y_sample [b; s; h].
Proof.
  apply (apply_rope_preserves_dot x_sample y_sample position_sample
           _DEFAULT_BASE 1 2 2 4);
    try reflexivity; try lia.
  unfold _DEFAULT_BASE. lra.
Defined.


(** ** The call with a Python number as base *)

Lemma apply_rope_call_accepted (x position : Array) (base : PyNumber) (v : R) :
  jnp.weak_scalar base = Ok v ->
  apply_rope_call x position base = apply_rope x position v.
Proof.
  intros Hv. unfold apply_rope_call, apply_rope.
  destruct (jnp.shape_last x) as [head_dim|e]; cbn [bind]; [|reflexivity].
  destruct (assert_ (head_dim mod 2 =? 0)%nat) as [[]|e]; cbn [bind];
    [|reflexivity].
  rewrite Hv. reflexivity.
Qed.

Lemma weak_scalar_float (v : R) : jnp.weak_scalar (PyFloat v) = Ok v.
Proof. reflexivity. Qed.

Lemma weak_scalar_int (n : Z) :
  (- 2 ^ 31 <= n < 2 ^ 31)%Z -> jnp.weak_scalar (PyInt n) = Ok (IZR n).
Proof.
  intros [Hlo Hhi]. unfold jnp.weak_scalar.
  apply Z.leb_le in Hlo. apply Z.ltb_lt in Hhi. rewrite Hlo, Hhi. reflexivity.
Qed.

(** With an even last dimension and an empty batch, sequence or head axis
    the length of the last axis of the final reshape cannot be inferred. *)
Lemma apply_rope_empty_axis (x position : Array) (base : R) (B S H D : nat) :
  shape x = [B; S; H; D] -> shape position = [B; S] ->
  (D mod 2 = 0)%nat -> (B = 0 \/ S = 0 \/ H = 0)%nat ->
  apply_rope x position base = Err ReshapeError.
Proof.
  intros Hx Hp Heven Hz.
  assert (HD : D = (2 * (D / 2))%nat)
    by (apply Nat.Div0.div_exact; exact Heven).
  destruct (freq_broadcast_ok position base B S H D)
    as (freq & freq' & Hfreq & Hfreq' & Hwf & Hbc & Hf).
  { rewrite Hp. apply broadcast_shapes_same. }
  destruct (apply_rope_stacked x position freq freq' base B S B S H D
              (D / 2) Hx HD Hfreq Hfreq' Hwf Hbc)
    as (stacked & -> & Hss & Hsw & _).
  { intros b s Hb Hs. rewrite !broadcast_axis by assumption. tauto. }
  { intros b s h k Hb Hs Hh Hk. apply Hf; assumption. }
  apply (reshape_empty stacked B S H (D / 2) Hss Hz).
Qed.

(** Against C1 as stated: a positive integer base of 2^31 is refused when
    it becomes an operand of the power; and on an empty head axis no
    tensor is returned. *)
Lemma apply_rope_large_int_base :
  ((0 < 2 ^ 31)%Z /\
   apply_rope_call x_sample position_sample (PyInt (2 ^ 31))
   = Err OverflowError) /\
  apply_rope_call (jnp.zeros [2; 2; 0; 4]%nat) (jnp.zeros [2; 2]%nat)
    default_base
  = Err ReshapeError.
Proof.
  split; [split; reflexivity|].
  rewrite (apply_rope_call_accepted _ _ default_base 10000 eq_refl).
  apply (apply_rope_empty_axis _ _ _ 2 2 0 4); try reflexivity. auto.
Qed.

(** C1, as the code has it. On an input of shape (B,S,H,D) with non-empty
    batch, sequence and head axes and D even, a position array of shape
    (B,S) and a positive base that is a float or an integer below 2^31,
    the call returns the tensor of shape (B,S,H,D) whose entry 2k of the
    last axis is [x[2k]*cos f - x[2k+1]*sin f] and whose entry 2k+1 is
    [x[2k+1]*cos f + x[2k]*sin f], with [f = position[b,s] * base^(-2k/D)]
    for every head: the pairs are taken by even/odd index, not as two
    contiguous halves. *)
Theorem apply_rope_rotates_pairs (x position : Array) (base : PyNumber)
    (v : R) (B S H D : nat) :
  shape x = [B; S; H; D] -> shape position = [B; S] ->
  (D mod 2 = 0)%nat ->
  jnp.weak_scalar base = Ok v -> 0 < v ->
  (0 < B)%nat -> (0 < S)%nat -> (0 < H)%nat ->
  exists out, apply_rope_call x position base = Ok out /\
    shape out = [B; S; H; D] /\ wf out /\
    forall b s h k,
      (b < B)%nat -> (s < S)%nat -> (h < H)%nat -> (k < D / 2)%nat ->
      let f := get position [b; s] * Rpower v (-2 * INR k / INR D) in
      get out [b; s; h; (2 * k)%nat] =
        get x [b; s; h; (2 * k)%nat] * cos f
        - get x [b; s; h; (2 * k + 1)%nat] * sin f /\
      get out [b; s; h; (2 * k + 1)%nat] =
        get x [b; s; h; (2 * k + 1)%nat] * cos f
        + get x [b; s; h; (2 * k)%nat] * sin f.
Proof.
  intros Hx Hp Heven Hv _ HB HS HH.
  rewrite (apply_rope_call_accepted x position base v Hv).
  destruct (apply_rope_ok x position v B S H D Hx Hp Heven HB HS HH)
    as (out & Hout & _ & Hs & Hw & Hrot).
  exists out. split; [exact Hout|]. split; [exact Hs|].
  split; [exact Hw|]. exact Hrot.
Qed.

Lemma apply_rope_rotates_pairs_sample :
  exists out, apply_rope_call x_sample position_sample default_base = Ok out /\
    shape out = [1; 2; 2; 4]%nat /\ wf out /\
    rotated x_sample position_sample 10000 1 2 2 4 out.
Proof.
  apply (apply_rope_rotates_pairs x_sample position_sample default_base
           10000 1 2 2 4);
    try reflexivity; try lia.
  lra.
Defined.

(** C2, at an input on which the code fails. An input of shape (0,2,2,4)
    is a valid array with an even last dimension, and the function
    documents that it returns a tensor of the same shape; the call fails in
    the final reshape instead, because the length of the [-1] axis is
    inferred by dividing by the product of the other axes, which is 0. *)
Theorem apply_rope_empty_batch_fails :
  apply_rope_call (jnp.zeros [0; 2; 2; 4]%nat) (jnp.zeros [0; 2]%nat)
    default_base
  = Err ReshapeError.
Proof.
  rewrite (apply_rope_call_accepted _ _ default_base 10000 eq_refl).
  apply (apply_rope_empty_axis _ _ _ 0 2 2 4); try reflexivity. auto.
Qed.

(** C4, at an input on which the code fails. With an empty sequence axis
    and the all-zero position array the call does not return [x]: it fails
    in the final reshape, as on every input with an empty batch, sequence
    or head axis. *)
Theorem apply_rope_zero_position_empty_fails :
  apply_rope_call (jnp.zeros [1; 0; 2; 4]%nat) (jnp.zeros [1; 0]%nat)
    default_base
  = Err ReshapeError.
Proof.
  rewrite (apply_rope_call_accepted _ _ default_base 10000 eq_refl).
  apply (apply_rope_empty_axis _ _ _ 1 0 2 4); try reflexivity. auto.
Qed.

(** ** Rounding to single precision *)

Section Rounding.

Lemma Zfloor_unique (r : R) (z : Z) :
  IZR z <= r < IZR z + 1 -> Zfloor r = z.
Proof.
  intros [Hlo Hhi]. unfold Zfloor.
  rewrite <- (up_tech r z Hlo); [lia|]. rewrite plus_IZR. exact Hhi.
Qed.

Lemma Znearest_unique (r : R) (z : Z) :
  Rabs (r - IZR z) < / 2 -> float32.Znearest r = z.
Proof.
  intros Hr. apply Rabs_def2 in Hr. destruct Hr as [Hhi Hlo].
  unfold float32.Znearest.
  destruct (Rle_lt_dec (IZR z) r) as [Hge | Hlt].
  - rewrite (Zfloor_unique r z) by lra.
    destruct (Rlt_dec (r - IZR z) (/ 2)); [reflexivity | lra].
  - rewrite (Zfloor_unique r (z - 1)) by (rewrite minus_IZR; lra).
    rewrite minus_IZR.
    destruct (Rlt_dec (r - (IZR z - 1)) (/ 2)); [lra|].
    destruct (Rlt_dec (/ 2) (r - (IZR z - 1))); [lia | lra].
Qed.

Lemma ln_powerRZ_2 (e : Z) : ln (powerRZ 2 e) = IZR e * ln 2.
Proof.
  rewrite powerRZ_Rpower by lra. unfold Rpower. apply ln_exp.
Qed.

Lemma ln_2_pos : 0 < ln 2.
Proof. rewrite <- ln_1. apply ln_increasing; lra. Qed.

Lemma exponent_binade (v : R) (e : Z) :
  powerRZ 2 e <= Rabs v < powerRZ 2 (e + 1) -> (-126 <= e)%Z ->
  float32.exponent v = e.
Proof.
  intros [Hlo Hhi] He. unfold float32.exponent.
  pose proof ln_2_pos as H2.
  assert (Hpos : 0 < powerRZ 2 e) by (apply powerRZ_lt; lra).
  assert (Hfl : Zfloor (ln (Rabs v) / ln 2) = e).
  { apply Zfloor_unique. split.
    - apply (Rmult_le_reg_r (ln 2)); [exact H2|].
      unfold Rdiv. rewrite Rmult_assoc, Rinv_l, Rmult_1_r by lra.
      rewrite <- ln_powerRZ_2.
      destruct Hlo as [Hlo | <-]; [left; apply ln_increasing; lra | right; reflexivity].
    - apply (Rmult_lt_reg_r (ln 2)); [exact H2|].
      unfold Rdiv. rewrite Rmult_assoc, Rinv_l, Rmult_1_r by lra.
      rewrite <- plus_IZR, <- ln_powerRZ_2.
      apply ln_increasing; lra. }
  rewrite Hfl. lia.
Qed.

(** The value of [round] inside a binade, from the nearest multiple of the
    spacing of that binade. *)
Lemma round_binade (v : R) (e z : Z) :
  powerRZ 2 e <= Rabs v < powerRZ 2 (e + 1) -> (-126 <= e)%Z ->
  Rabs (v / powerRZ 2 (e - 23) - IZR z) < / 2 ->
  float32.round v = IZR z * powerRZ 2 (e - 23).
Proof.
  intros Hb He Hz. unfold float32.round, float32.ulp.
  rewrite (exponent_binade v e Hb He).
  destruct (Req_EM_T v 0) as [->|_].
  - exfalso. rewrite Rabs_R0 in Hb.
    assert (0 < powerRZ 2 e) by (apply powerRZ_lt; lra). lra.
  - rewrite (Znearest_unique _ z Hz). reflexivity.
Qed.

Lemma round_0 : float32.round 0 = 0.
Proof.
  unfold float32.round. destruct (Req_EM_T 0 0); [reflexivity | contradiction].
Qed.

End Rounding.

Section RoundingValues.

Lemma round_binade_pos (v : R) (e z : Z) :
  powerRZ 2 e <= v < powerRZ 2 (e + 1) -> (-126 <= e)%Z ->
  - / 2 < v / powerRZ 2 (e - 23) - IZR z < / 2 ->
  float32.round v = IZR z * powerRZ 2 (e - 23).
Proof.
  intros Hb He Hz.
  assert (0 < powerRZ 2 e) by (apply powerRZ_lt; lra).
  apply round_binade; [rewrite Rabs_pos_eq by lra; exact Hb | exact He |].
  apply Rabs_def1; lra.
Qed.

Lemma round_binade_neg (v : R) (e z : Z) :
  powerRZ 2 e <= - v < powerRZ 2 (e + 1) -> (-126 <= e)%Z ->
  - / 2 < v / powerRZ 2 (e - 23) - IZR z < / 2 ->
  float32.round v = IZR z * powerRZ 2 (e - 23).
Proof.
  intros Hb He Hz.
  assert (0 < powerRZ 2 e) by (apply powerRZ_lt; lra).
  apply round_binade; [rewrite Rabs_left by lra; exact Hb | exact He |].
  apply Rabs_def1; lra.
Qed.

Lemma round_1 : float32.round 1 = 1.
Proof.
  rewrite (round_binade_pos 1 0 8388608); simpl; lra || lia.
Qed.

Lemma round_16 : float32.round 16 = 16.
Proof.
  rewrite (round_binade_pos 16 4 8388608); simpl; lra || lia.
Qed.

Lemma round_8 : float32.round 8 = 8.
Proof.
  rewrite (round_binade_pos 8 3 8388608); simpl; lra || lia.
Qed.

Lemma round_minus_2 : float32.round (-2) = -2.
Proof.
  rewrite (round_binade_neg (-2) 1 (-8388608)); simpl; lra || lia.
Qed.

Lemma round_minus_eighth : float32.round (-2 / 16) = - / 8.
Proof.
  rewrite (round_binade_neg (-2 / 16) (-3) (-8388608)); simpl; lra || lia.
Qed.

Lemma round_minus_quarter : float32.round (-2 / 8) = - / 4.
Proof.
  rewrite (round_binade_neg (-2 / 8) (-2) (-8388608)); simpl; lra || lia.
Qed.

(** 1.0000001 lies between 1 and the next single-precision number,
    nearer to the latter. *)
Lemma round_near_1 : float32.round 1.0000001 = 8388609 / 8388608.
Proof.
  rewrite (round_binade_pos 1.0000001 0 8388609); simpl; lra || lia.
Qed.

Lemma round_10000 : float32.round 10000 = 10000.
Proof.
  rewrite (round_binade_pos 10000 13 10240000); simpl; lra || lia.
Qed.

(** 10000.0001 is nearer to 10000 than to the next single-precision
    number, 10000 + 2^-10. *)
Lemma round_above_10000 : float32.round 10000.0001 = 10000.
Proof.
  rewrite (round_binade_pos 10000.0001 13 10240000); simpl; lra || lia.
Qed.

End RoundingValues.

Section SinglePrecisionTimescale.

(** A power slightly below 1: Bernoulli's bound for a base above 1 and an
    exponent in (-1, 0). *)
Lemma Rpower_near_1 (b e : R) :
  1 < b -> -1 < e < 0 -> 1 + e * (b - 1) < Rpower b e < 1.
Proof.
  intros Hb He. unfold Rpower.
  assert (Hln : 0 < ln b) by (rewrite <- ln_1; apply ln_increasing; lra).
  assert (Hlnb : ln b < b - 1).
  { pose proof (exp_ineq1 (ln b)) as Hexp. rewrite exp_ln in Hexp by lra.
    assert (ln b <> 0) by lra.
    pose proof (exp_ineq1 (b - 1)) as Hexp2.
    apply exp_lt_inv. rewrite exp_ln by lra.
    assert (b - 1 <> 0) by lra. specialize (Hexp2 H0). lra. }
  split.
  - pose proof (exp_ineq1 (e * ln b)) as Hexp.
    assert (e * ln b <> 0) by nra. specialize (Hexp H). nra.
  - rewrite <- exp_0. apply exp_increasing. nra.
Qed.

Lemma power_float32_16_0 : power_float32 16 0 = 0.
Proof.
  unfold power_float32. simpl INR.
  replace (-2 * 0) with 0 by lra. rewrite round_0.
  unfold Rdiv. rewrite Rmult_0_l. apply round_0.
Qed.

Lemma power_float32_16_1 : power_float32 16 1 = - / 8.
Proof.
  unfold power_float32.
  replace (-2 * INR 1) with (-2) by (simpl; lra).
  replace (INR 16) with 16 by (simpl; lra).
  rewrite round_minus_2, round_16. apply round_minus_eighth.
Qed.

(** With the base 1.0000001 and [head_dim = 16] the first two entries of
    the single-precision timescale are both 1. *)
Lemma timescale_float32_near_1 :
  timescale_float32 1.0000001 16 0 = 1 /\
  timescale_float32 1.0000001 16 1 = 1.
Proof.
  unfold timescale_float32.
  rewrite round_near_1, power_float32_16_0, power_float32_16_1.
  split.
  - rewrite Rpower_O by lra. apply round_1.
  - destruct (Rpower_near_1 (8388609 / 8388608) (- / 8)) as [Hlo Hhi];
      [lra | lra |].
    rewrite (round_binade_pos _ (-1) 16777216); simpl; lra || lia.
Qed.

End SinglePrecisionTimescale.

(** ** The timescale of a Python base *)

Lemma rope_timescale_call_accepted (base : PyNumber) (v : R) (D : nat) :
  jnp.weak_scalar base = Ok v ->
  rope_timescale_call base D = Ok (rope_timescale v D).
Proof. intros Hv. unfold rope_timescale_call. rewrite Hv. reflexivity. Qed.

(** Against C7 as stated: in single precision the timescale of the base
    1.0000001 starts with two equal entries, and the integer base 2^31 is
    refused, so that there is no timescale at all. *)
Lemma timescale_not_strictly_decreasing :
  (1 < 1.0000001 /\
   timescale_float32 1.0000001 16 1 = timescale_float32 1.0000001 16 0) /\
  ((1 < 2 ^ 31)%Z /\
   rope_timescale_call (PyInt (2 ^ 31)) 16 = Err OverflowError).
Proof.
  split; split.
  - lra.
  - destruct timescale_float32_near_1 as [-> ->]. reflexivity.
  - reflexivity.
  - reflexivity.
Qed.

(** C7, as the code has it. In exact real arithmetic, for an even D >= 2
    and a base above 1 that is a float or an integer below 2^31, the
    exponents are [-2k/D] for the consecutive integers k = 0 .. D/2-1, and
    [timescale[k] = base^(-2k/D)] starts at 1, stays in (0, 1] and is
    strictly decreasing. *)
Theorem timescale_strictly_decreasing (base : PyNumber) (v : R) (D : nat) :
  jnp.weak_scalar base = Ok v -> 1 < v ->
  (D mod 2 = 0)%nat -> (2 <= D)%nat ->
  exists timescale,
    rope_timescale_call base D = Ok timescale /\
    shape timescale = [(D / 2)%nat] /\
    (forall k, (k < D / 2)%nat ->
       get (rope_power D) [k] = -2 * INR k / INR D /\
       get timescale [k] = Rpower v (-2 * INR k / INR D) /\
       0 < get timescale [k] <= 1) /\
    get timescale [0%nat] = 1 /\
    (forall j k, (j < k)%nat -> (k < D / 2)%nat ->
       get timescale [k] < get timescale [j]).
Proof.
  intros Hv Hbase _ HD.
  exists (rope_timescale v D).
  split; [apply rope_timescale_call_accepted; exact Hv|].
  assert (HK : (0 < D / 2)%nat).
  { pose proof (Nat.div_mod_eq D 2). pose proof (Nat.mod_upper_bound D 2). lia. }
  split; [apply shape_rope_timescale|].
  split; [|split].
  - intros k Hk. split; [apply get_rope_power; exact Hk|].
    rewrite get_rope_timescale by exact Hk.
    split; [reflexivity|]. split.
    + unfold Rpower. apply exp_pos.
    + apply Rpower_nonpos_le_1; [exact Hbase | apply exponent_nonpos].
  - rewrite get_rope_timescale by exact HK.
    simpl INR. unfold Rdiv. rewrite Rmult_0_r, Rmult_0_l.
    apply Rpower_O. lra.
  - intros j k Hjk Hk.
    rewrite !get_rope_timescale by lia.
    apply Rpower_lt; [exact Hbase|]. apply exponent_decreasing; lia.
Qed.

Lemma timescale_strictly_decreasing_sample :
  exists timescale,
    rope_timescale_call default_base 8 = Ok timescale /\
    shape timescale = [4%nat] /\
    (forall k, (k < 8 / 2)%nat ->
       get (rope_power 8) [k] = -2 * INR k / INR 8 /\
       get timescale [k] = Rpower 10000 (-2 * INR k / INR 8) /\
       0 < get timescale [k] <= 1) /\
    get timescale [0%nat] = 1 /\
    (forall j k, (j < k)%nat -> (k < 8 / 2)%nat ->
       get timescale [k] < get timescale [j]).
Proof.
  apply (timescale_strictly_decreasing default_base 10000 8);
    try reflexivity; try lia.
  lra.
Defined.

(** Against C8 as stated: 10000 and 10000.0001 are the same
    single-precision number, so the larger base gives the same timescale
    (and the same angles); and the still larger integer base 2^31 is
    refused. *)
Lemma timescale_same_for_close_bases :
  (1 < 10000 < 10000.0001 /\
   timescale_float32 10000.0001 8 1 = timescale_float32 10000 8 1) /\
  ((10000 < 2 ^ 31)%Z /\
   rope_timescale_call (PyInt (2 ^ 31)) 8 = Err OverflowError).
Proof.
  split; split.
  - lra.
  - unfold timescale_float32. rewrite round_above_10000, round_10000.
    reflexivity.
  - reflexivity.
  - reflexivity.
Qed.

(** C8, as the code has it. In exact real arithmetic, for an even D >= 4
    and bases 1 < b1 < b2 that are floats or integers below 2^31, the
    larger base gives a strictly smaller [timescale[k]] on every plane
    k >= 1 and the same [timescale[0] = 1]; hence at a nonzero position the
    angle of those planes is strictly smaller in magnitude. *)
Theorem timescale_base_sensitivity (b1 b2 : PyNumber) (v1 v2 : R) (D : nat)
    (position : Array) (B S : nat) :
  jnp.weak_scalar b1 = Ok v1 -> jnp.weak_scalar b2 = Ok v2 ->
  1 < v1 -> v1 < v2 -> (D mod 2 = 0)%nat -> (4 <= D)%nat ->
  shape position = [B; S] ->
  exists ts1 ts2,
    rope_timescale_call b1 D = Ok ts1 /\
    rope_timescale_call b2 D = Ok ts2 /\
    (forall k, (1 <= k)%nat -> (k < D / 2)%nat ->
       get ts2 [k] < get ts1 [k]) /\
    get ts1 [0%nat] = 1 /\
    get ts2 [0%nat] = 1 /\
    exists freq1 freq2,
      rope_freq position v1 D = Ok freq1 /\
      rope_freq position v2 D = Ok freq2 /\
      forall b s k,
        (b < B)%nat -> (s < S)%nat -> (1 <= k)%nat -> (k < D / 2)%nat ->
        get position [b; s] <> 0 ->
        Rabs (get freq2 [b; s; k]) < Rabs (get freq1 [b; s; k]).
Proof.
  intros Hv1 Hv2 H1 H12 _ HD Hp.
  exists (rope_timescale v1 D), (rope_timescale v2 D).
  split; [apply rope_timescale_call_accepted; exact Hv1|].
  split; [apply rope_timescale_call_accepted; exact Hv2|].
  assert (HK : (0 < D / 2)%nat).
  { pose proof (Nat.div_mod_eq D 2). pose proof (Nat.mod_upper_bound D 2). lia. }
  assert (Hneg : forall k, (1 <= k)%nat -> -2 * INR k / INR D < 0).
  { intros k Hk. replace 0 with (-2 * INR 0 / INR D).
    - apply exponent_decreasing; lia.
    - simpl. unfold Rdiv. ring. }
  assert (Hzero : forall b, 0 < b -> get (rope_timescale b D) [0%nat] = 1).
  { intros b Hb. rewrite get_rope_timescale by exact HK.
    simpl INR. unfold Rdiv. rewrite Rmult_0_r, Rmult_0_l.
    apply Rpower_O. exact Hb. }
  split; [|split; [apply Hzero; lra | split; [apply Hzero; lra|]]].
  - intros k Hk1 Hk. rewrite !get_rope_timescale by exact Hk.
    apply Rpower_base_decreasing; [lra | exact H12 | apply Hneg; exact Hk1].
  - destruct (rope_freq_ok position v1 D B S Hp) as (f1 & Hf1 & _ & _ & _ & Hg1).
    destruct (rope_freq_ok position v2 D B S Hp) as (f2 & Hf2 & _ & _ & _ & Hg2).
    exists f1, f2. split; [exact Hf1|]. split; [exact Hf2|].
    intros b s k Hb Hs Hk1 Hk Hnz.
    rewrite Hg1, Hg2 by assumption. unfold angle.
    rewrite !Rabs_mult. apply Rmult_lt_compat_l; [apply Rabs_pos_lt; exact Hnz|].
    rewrite !Rabs_pos_eq by (left; unfold Rpower; apply exp_pos).
    apply Rpower_base_decreasing; [lra | exact H12 | apply Hneg; exact Hk1].
Qed.

Lemma timescale_base_sensitivity_sample :
  exists ts1 ts2,
    rope_timescale_call default_base 8 = Ok ts1 /\
    rope_timescale_call (PyFloat 500000) 8 = Ok ts2 /\
    (forall k, (1 <= k)%nat -> (k < 8 / 2)%nat ->
       get ts2 [k] < get ts1 [k]) /\
    get ts1 [0%nat] = 1 /\
    get ts2 [0%nat] = 1 /\
    exists freq1 freq2,
      rope_freq position_sample 10000 8 = Ok freq1 /\
      rope_freq position_sample 500000 8 = Ok freq2 /\
      forall b s k,
        (b < 1)%nat -> (s < 2)%nat -> (1 <= k)%nat -> (k < 8 / 2)%nat ->
        get position_sample [b; s] <> 0 ->
        Rabs (get freq2 [b; s; k]) < Rabs (get freq1 [b; s; k]).
Proof.
  apply (timescale_base_sensitivity default_base (PyFloat 500000)
           10000 500000 8 position_sample 1 2);
    try reflexivity; try lia; lra.
Defined.

(** X9. In exact real arithmetic, for a base above 1 that is a float or
    an integer below 2^31, every timescale lies above [1 / base]: the
    exponent [-2k/D] of a plane [k < D / 2] is above -1. *)
Theorem timescale_above_inverse_base (base : PyNumber) (v : R) (D k : nat) :
  jnp.weak_scalar base = Ok v -> 1 < v -> (k < D / 2)%nat ->
  exists timescale,
    rope_timescale_call base D = Ok timescale /\
    / v < get timescale [k] <= 1.
Proof.
  intros Hv Hbase Hk. exists (rope_timescale v D).
  split; [apply rope_timescale_call_accepted; exact Hv|].
  rewrite get_rope_timescale by exact Hk.
  split; [|apply Rpower_nonpos_le_1; [exact Hbase | apply exponent_nonpos]].
  replace (/ v) with (Rpower v (-1)).
  2:{ replace (-1) with (- (1)) by lra.
      rewrite Rpower_Ropp, Rpower_1 by lra. reflexivity. }
  apply Rpower_lt; [exact Hbase|].
  pose proof (plane_bounds D k Hk) as Hk2.
  assert (HDpos : 0 < INR D) by (apply lt_0_INR; lia).
  assert (H2k : 2 * INR k < INR D).
  { replace (2 * INR k) with (INR (2 * k)) by (rewrite mult_INR; simpl; lra).
    apply lt_INR. lia. }
  apply (Rmult_lt_reg_r (INR D)); [exact HDpos|].
  unfold Rdiv. rewrite Rmult_assoc, Rinv_l by lra. lra.
Qed.

Lemma timescale_above_inverse_base_sample :
  exists timescale,
    rope_timescale_call default_base 8 = Ok timescale /\
    / 10000 < get timescale [3%nat] <= 1.
Proof.
  apply (timescale_above_inverse_base default_base 10000 8 3).
  - reflexivity.
  - lra.
  - simpl. lia.
Defined.

(** ** Sums and opposites of positions *)

Section TypedPositions.

Lemma wrap_in_range (w : Z) (v : R) :
  (0 < w)%Z -> - IZR (2 ^ (w - 1)) <= v < IZR (2 ^ (w - 1)) ->
  jnp.wrap w v = v.
Proof.
  intros Hw Hv. unfold jnp.wrap.
  assert (H2 : IZR (2 ^ w) = 2 * IZR (2 ^ (w - 1))).
  { replace w with (Z.succ (w - 1)) at 1 by lia.
    rewrite Z.pow_succ_r by lia. rewrite mult_IZR. reflexivity. }
  assert (Hpos : 0 < IZR (2 ^ (w - 1))).
  { apply IZR_lt. apply Z.pow_pos_nonneg; lia. }
  rewrite (Zfloor_unique _ 0).
  - simpl. ring.
  - rewrite H2. simpl. split.
    + apply Rmult_le_pos; [lra|]. left. apply Rinv_0_lt_compat. lra.
    + apply (Rmult_lt_reg_r (2 * IZR (2 ^ (w - 1)))); [lra|].
      unfold Rdiv. rewrite Rmult_assoc, Rinv_l by lra. lra.
Qed.

(** A float holds every value; a 32-bit integer holds the values of its
    range. *)
Lemma representable_float (d : DType) (v : R) :
  is_float d = true -> jnp.representable d v.
Proof. destruct d; try discriminate; reflexivity. Qed.

Lemma representable_int32 (v : R) :
  - 2147483648 <= v < 2147483648 -> jnp.representable int32 v.
Proof.
  intros Hv. unfold jnp.representable, jnp.store.
  apply wrap_in_range; [lia | simpl; lra].
Qed.

Lemma typed_add_same (a b : Array) :
  shape b = shape a ->
  exists c, jnp.typed_add a b = Ok c /\
    dtype c = promote_types (dtype a) (dtype b) /\
    shape c = shape a /\ wf c /\
    forall idx, in_range (shape a) idx ->
      get c idx =
        jnp.store (promote_types (dtype a) (dtype b)) (get a idx + get b idx).
Proof.
  intros Hs. unfold jnp.typed_add. rewrite Hs, broadcast_shapes_same.
  eexists; split; [reflexivity|]. cbv zeta.
  split; [reflexivity|]. split; [reflexivity|]. split; [apply wf_build|].
  intros idx Hidx. rewrite get_build by exact Hidx.
  rewrite broadcast_index_same by exact Hidx. reflexivity.
Qed.

Lemma typed_negative_ok (a : Array) :
  dtype a <> bool_ ->
  jnp.typed_negative a
  = Ok (jnp.map_array (dtype a) (fun v => jnp.store (dtype a) (- v)) a).
Proof.
  intros Hd. unfold jnp.typed_negative.
  destruct (dtype a); try reflexivity. contradiction.
Qed.

End TypedPositions.

(** Against C10 as stated: the positive integer base 2^32 is refused; the
    sum of two positions of an 8-bit integer type wraps around, 100 + 100
    being held as -56, so that [p + q] is not the sum of the angles; and
    on an empty sequence axis the first rotation already fails. *)
Lemma apply_rope_composition_fails :
  ((0 < 2 ^ 32)%Z /\
   apply_rope_call (x_unit float32) position_origin (PyInt (2 ^ 32))
   = Err OverflowError) /\
  (exists pq, jnp.typed_add position_int8 position_int8 = Ok pq /\
     get position_int8 [0; 0]%nat + get position_int8 [0; 0]%nat = 200 /\
     get pq [0; 0]%nat = -56) /\
  apply_rope_call (jnp.zeros [3; 0; 1; 2]%nat) (jnp.zeros [3; 0]%nat)
    default_base
  = Err ReshapeError.
Proof.
  split; [split; reflexivity|].
  split.
  2:{ rewrite (apply_rope_call_accepted _ _ default_base 10000 eq_refl).
      apply (apply_rope_empty_axis _ _ _ 3 0 1 2); try reflexivity. auto. }
  destruct (typed_add_same position_int8 position_int8 eq_refl)
    as (pq & Hpq & _ & _ & _ & Hg).
  exists pq. split; [exact Hpq|].
  split; [unfold get; simpl; lra|].
  rewrite Hg by (simpl; lia).
  unfold get; simpl. unfold jnp.wrap.
  rewrite (Zfloor_unique _ 1); simpl; lra.
Qed.

Lemma angle_of_opposite (p np : Array) (base : R) (D b s k : nat) :
  get np [b; s] = - get p [b; s] ->
  angle np base D b s k = - angle p base D b s k.
Proof. unfold angle. intros ->. ring. Qed.

(** C10, as the code has it. In exact real arithmetic, on non-empty
    batch, sequence and head axes, with D even and a positive base that is
    a float or an integer below 2^31: when the sum [p + q] is held without
    wrap-around in the promoted element type of the positions, rotating by
    [p] and then by [q] is rotating by [p + q]; and when [p] is not boolean
    and [-p] is held without wrap-around, rotating by [-p] undoes the
    rotation by [p]. *)
Theorem apply_rope_composes (x p q : Array) (base : PyNumber) (v : R)
    (B S H D : nat) :
  shape x = [B; S; H; D] -> wf x ->
  shape p = [B; S] -> wf p -> shape q = [B; S] ->
  (D mod 2 = 0)%nat ->
  jnp.weak_scalar base = Ok v -> 0 < v ->
  (0 < B)%nat -> (0 < S)%nat -> (0 < H)%nat ->
  exists y,
    apply_rope_call x p base = Ok y /\
    ((forall b s, (b < B)%nat -> (s < S)%nat ->
        jnp.representable (promote_types (dtype p) (dtype q))
          (get p [b; s] + get q [b; s])) ->
     exists pq out,
       jnp.typed_add p q = Ok pq /\
       apply_rope_call y q base = Ok out /\
       apply_rope_call x pq base = Ok out) /\
    (dtype p <> bool_ ->
     (forall b s, (b < B)%nat -> (s < S)%nat ->
        jnp.representable (dtype p) (- get p [b; s])) ->
     exists np back,
       jnp.typed_negative p = Ok np /\
       apply_rope_call y np base = Ok back /\
       shape back = shape x /\ data back = data x /\
       (dtype x = float32 -> back = x)).
Proof.
  intros Hx Hwf Hp Hwp Hq Heven Hv _ HB HS HH.
  rewrite (apply_rope_call_accepted x p base v Hv).
  destruct (apply_rope_ok x p v B S H D Hx Hp Heven HB HS HH)
    as (y & Hy & Hyd & Hys & Hyw & Hyrot).
  exists y. split; [exact Hy|]. split.
  - intros Hrep.
    destruct (typed_add_same p q) as (pq & Hpq & _ & Hpqs & _ & Hpqg);
      [congruence|].
    rewrite Hp in Hpqs, Hpqg.
    rewrite (apply_rope_call_accepted y q base v Hv).
    destruct (apply_rope_ok y q v B S H D Hys Hq Heven HB HS HH)
      as (out & Hout & Hod & Hos & How & Horot).
    destruct (apply_rope_ok x pq v B S H D Hx Hpqs Heven HB HS HH)
      as (out' & Hout' & Hod' & Hos' & How' & Horot').
    exists pq, out. split; [exact Hpq|]. split; [exact Hout|].
    rewrite (apply_rope_call_accepted x pq base v Hv), Hout'. f_equal.
    apply array_eq; [congruence | congruence |].
    apply (pairs_ext out' out B S H D How' How Hos' Hos Heven).
    intros b s h k Hb Hs Hh Hk.
    destruct (Horot b s h k Hb Hs Hh Hk) as [-> ->].
    destruct (Horot' b s h k Hb Hs Hh Hk) as [-> ->].
    destruct (Hyrot b s h k Hb Hs Hh Hk) as [-> ->].
    rewrite (angle_add p q pq).
    2:{ rewrite Hpqg by (simpl; tauto). apply Hrep; assumption. }
    rewrite cos_plus, sin_plus. split; ring.
  - intros Hnb Hrep.
    set (np := jnp.map_array (dtype p)
                 (fun v0 => jnp.store (dtype p) (- v0)) p).
    destruct (apply_rope_ok y np v B S H D Hys Hp Heven HB HS HH)
      as (back & Hback & Hbd & Hbs & Hbw & Hbrot).
    exists np, back. split; [apply typed_negative_ok; exact Hnb|].
    split; [rewrite (apply_rope_call_accepted y np base v Hv); exact Hback|].
    split; [congruence|].
    assert (Hdata : data back = data x);
      [|split; [exact Hdata | intros Hx32; apply array_eq; congruence]].
    apply (pairs_ext back x B S H D Hbw Hwf Hbs Hx Heven).
    intros b s h k Hb Hs Hh Hk.
    destruct (Hbrot b s h k Hb Hs Hh Hk) as [-> ->].
    destruct (Hyrot b s h k Hb Hs Hh Hk) as [-> ->].
    rewrite (angle_of_opposite p np).
    2:{ unfold np. rewrite get_map_array
          by (try exact Hwp; rewrite Hp; simpl; tauto).
        apply Hrep; assumption. }
    rewrite cos_neg, sin_neg.
    set (f := angle p v D b s k).
    set (e := get x [b; s; h; (2 * k)%nat]).
    set (o := get x [b; s; h; (2 * k + 1)%nat]).
    pose proof (sin2_cos2 f) as Hsc. unfold Rsqr in Hsc.
    split.
    + transitivity (e * (sin f * sin f + cos f * cos f)); [ring|].
      rewrite Hsc. ring.
    + transitivity (o * (sin f * sin f + cos f * cos f)); [ring|].
      rewrite Hsc. ring.
Qed.

Lemma sample_positions_values (b s : nat) :
  (b < 1)%nat -> (s < 2)%nat ->
  (get position_sample [b; s] = 0 \/ get position_sample [b; s] = 3) /\
  (get shift_sample [b; s] = 5 \/ get shift_sample [b; s] = 1).
Proof.
  intros Hb Hs. assert (b = 0%nat) by lia. subst b.
  destruct s as [|[|s]]; [| |lia]; unfold get; simpl; split; auto.
Qed.

Lemma apply_rope_composes_sample :
  exists y,
    apply_rope_call x_sample position_sample default_base = Ok y /\
    (exists pq out,
       jnp.typed_add position_sample shift_sample = Ok pq /\
       apply_rope_call y shift_sample default_base = Ok out /\
       apply_rope_call x_sample pq default_base = Ok out) /\
    (exists np back,
       jnp.typed_negative position_sample = Ok np /\
       apply_rope_call y np default_base = Ok back /\
       shape back = shape x_sample /\ data back = data x_sample /\
       (dtype x_sample = float32 -> back = x_sample)).
Proof.
  destruct (apply_rope_composes x_sample position_sample shift_sample
              default_base 10000 1 2 2 4)
    as (y & Hy & Hadd & Hneg);
    try reflexivity; try lia; try lra.
  exists y. split; [exact Hy|]. split.
  - apply Hadd. intros b s Hb Hs. apply representable_int32.
    destruct (sample_positions_values b s Hb Hs) as [[-> | ->] [-> | ->]]; lra.
  - apply Hneg; [discriminate|]. intros b s Hb Hs. apply representable_int32.
    destruct (sample_positions_values b s Hb Hs) as [[-> | ->] _]; lra.
Defined.

(** ** The buffer of the result *)

(** The computation on array objects returns the array of [apply_rope],
    or fails as it does, and the buffer of the result is allocated during
    the call. *)
Lemma apply_rope_refs_spec (x position : Ref) (base : R) (next : nat) :
  match apply_rope_refs x position base next with
  | Ok (r, next') =>
      apply_rope (value x) (value position) base = Ok (value r) /\
      (next <= buffer r < next')%nat
  | Err e => apply_rope (value x) (value position) base = Err e
  end.
Proof.
  unfold apply_rope_refs, apply_rope, rope_freq, rope_timescale, rope_power.
  unfold alloc.bind, alloc.lift, alloc.fresh, alloc.view.
  destruct (jnp.shape_last (value x)) as [head_dim|e]; cbn [bind];
    [|reflexivity].
  destruct (assert_ (head_dim mod 2 =? 0)%nat) as [[]|e]; cbn [bind value];
    [|reflexivity].
  repeat match goal with
  | |- context [match ?m with Ok _ => _ | Err _ => _ end] =>
      match m with
      | jnp.multiply _ _ => idtac
      | jnp.subtract _ _ => idtac
      | jnp.add _ _ => idtac
      | jnp.newaxis_penultimate _ => idtac
      | jnp.slice_last _ _ _ => idtac
      | jnp.stack_last _ _ => idtac
      | jnp.reshape_infer_last _ _ => idtac
      end;
      destruct m; cbn [bind value buffer]; [|reflexivity]
  end.
  split; [reflexivity | lia].
Qed.

(** Against C9 as stated: a half-precision input comes back in single
    precision; and on an empty head axis no array comes back at all. *)
Lemma apply_rope_promotes_bfloat16 :
  (exists out,
     apply_rope (x_unit bfloat16) position_origin _DEFAULT_BASE = Ok out /\
     dtype out = float32 /\ dtype out <> dtype (x_unit bfloat16)) /\
  apply_rope (jnp.zeros [1; 1; 0; 2]%nat) (jnp.zeros [1; 1]%nat) _DEFAULT_BASE
  = Err ReshapeError.
Proof.
  split.
  - destruct (apply_rope_ok (x_unit bfloat16) position_origin _DEFAULT_BASE
                1 1 1 2 eq_refl eq_refl eq_refl
                Nat.lt_0_1 Nat.lt_0_1 Nat.lt_0_1)
      as (out & Hout & Hd & _).
    exists out. split; [exact Hout|]. split; [exact Hd|].
    rewrite Hd. discriminate.
  - apply (apply_rope_empty_axis _ _ _ 1 1 0 2); try reflexivity. auto.
Qed.

(** C9, as the code has it. On non-empty batch, sequence and head axes
    with D even, for [x] and [position] of any of the element types bool,
    int8, int16, int32, bfloat16, float16 and float32, the function returns
    a new array, whose buffer is neither the buffer of [x] nor that of
    [position], and whose element type is the promotion of the element
    types of [x], of [position] and of the single-precision timescale: it
    is [float32] in every case, and so it is the element type of [x]
    exactly when [x] is [float32]. *)
Theorem apply_rope_result_type (x position : Array) (base : R)
    (B S H D : nat) :
  shape x = [B; S; H; D] -> shape position = [B; S] ->
  (D mod 2 = 0)%nat ->
  (0 < B)%nat -> (0 < S)%nat -> (0 < H)%nat ->
  exists out, apply_rope x position base = Ok out /\
    dtype out =
      promote_types (dtype x) (promote_types (dtype position) float32) /\
    dtype out = float32 /\
    (dtype out = dtype x <-> dtype x = float32) /\
    forall (xr pr : Ref) (next : nat),
      value xr = x -> value pr = position ->
      (buffer xr < next)%nat -> (buffer pr < next)%nat ->
      exists r next',
        apply_rope_refs xr pr base next = Ok (r, next') /\
        value r = out /\
        buffer r <> buffer xr /\ buffer r <> buffer pr.
Proof.
  intros Hx Hp Heven HB HS HH.
  destruct (apply_rope_ok x position base B S H D Hx Hp Heven HB HS HH)
    as (out & Hout & Hd & _).
  exists out. split; [exact Hout|].
  split; [rewrite Hd, !promote_float32_r; reflexivity|].
  split; [exact Hd|].
  split; [rewrite Hd; split; intros E; congruence|].
  intros xr pr next Hxr Hpr Hbx Hbp.
  pose proof (apply_rope_refs_spec xr pr base next) as Hspec.
  rewrite Hxr, Hpr, Hout in Hspec.
  destruct (apply_rope_refs xr pr base next) as [[r next']|e];
    [|discriminate].
  destruct Hspec as [Hval Hbuf]. injection Hval as Hval.
  exists r, next'. split; [reflexivity|]. split; [congruence|]. lia.
Qed.

Lemma apply_rope_result_type_sample :
  exists out, apply_rope (x_unit float16) position_origin _DEFAULT_BASE = Ok out /\
    dtype out = promote_types float16 (promote_types int32 float32) /\
    dtype out = float32 /\
    (dtype out = float16 <-> float16 = float32) /\
    forall (xr pr : Ref) (next : nat),
      value xr = x_unit float16 -> value pr = position_origin ->
      (buffer xr < next)%nat -> (buffer pr < next)%nat ->
      exists r next',
        apply_rope_refs xr pr _DEFAULT_BASE next = Ok (r, next') /\
        value r = out /\
        buffer r <> buffer xr /\ buffer r <> buffer pr.
Proof.
  apply (apply_rope_result_type (x_unit float16) position_origin _DEFAULT_BASE
           1 1 1 2);
    try reflexivity; lia.
Defined.

(** X7. In exact real arithmetic the rotation is additive in [x]: when
    the sum [x + y] is held without wrap-around in the promoted element
    type (as it always is for floating-point arrays), rotating the sum
    gives the sum of the rotated arrays. *)
Theorem apply_rope_additive (x y p : Array) (base : R) (B S H D : nat) :
  shape x = [B; S; H; D] -> shape y = [B; S; H; D] -> shape p = [B; S] ->
  (forall b s h d, (b < B)%nat -> (s < S)%nat -> (h < H)%nat -> (d < D)%nat ->
     jnp.representable (promote_types (dtype x) (dtype y))
       (get x [b; s; h; d] + get y [b; s; h; d])) ->
  (D mod 2 = 0)%nat -> 0 < base ->
  (0 < B)%nat -> (0 < S)%nat -> (0 < H)%nat ->
  exists xy rx ry rxy,
    jnp.typed_add x y = Ok xy /\
    apply_rope x p base = Ok rx /\ apply_rope y p base = Ok ry /\
    apply_rope xy p base = Ok rxy /\
    jnp.typed_add rx ry = Ok rxy.
Proof.
  intros Hx Hy Hp Hrep Heven _ HB HS HH.
  destruct (typed_add_same x y) as (xy & Hxy & _ & Hxys & _ & Hxyg);
    [congruence|].
  rewrite Hx in Hxys, Hxyg.
  destruct (apply_rope_ok x p base B S H D Hx Hp Heven HB HS HH)
    as (rx & Hrx & Hrxd & Hrxs & Hrxw & Hxrot).
  destruct (apply_rope_ok y p base B S H D Hy Hp Heven HB HS HH)
    as (ry & Hry & Hryd & Hrys & Hryw & Hyrot).
  destruct (apply_rope_ok xy p base B S H D Hxys Hp Heven HB HS HH)
    as (rxy & Hrxy & Hrxyd & Hrxys & Hrxyw & Hxyrot).
  destruct (typed_add_same rx ry) as (sum & Hsum & Hsd & Hss & Hsw & Hsg);
    [congruence|].
  exists xy, rx, ry, rxy. repeat (split; [assumption|]).
  rewrite Hsum. f_equal.
  apply array_eq;
    [rewrite Hsd, Hrxd, Hryd, Hrxyd; reflexivity | congruence |].
  rewrite Hrxs in Hss, Hsg. rewrite Hrxd, Hryd in Hsg. cbn [jnp.store
    promote_types is_float DType_eqb] in Hsg.
  apply (pairs_ext sum rxy B S H D Hsw Hrxyw Hss Hrxys Heven).
  intros b s h k Hb Hs Hh Hk.
  pose proof (plane_bounds D k Hk) as Hk2.
  rewrite !Hsg by (simpl; repeat split; lia).
  destruct (Hxrot b s h k Hb Hs Hh Hk) as [-> ->].
  destruct (Hyrot b s h k Hb Hs Hh Hk) as [-> ->].
  destruct (Hxyrot b s h k Hb Hs Hh Hk) as [-> ->].
  rewrite !Hxyg by (simpl; repeat split; lia).
  rewrite !Hrep by lia.
  split; ring.
Qed.

Lemma apply_rope_additive_sample :
  exists xy rx ry rxy,
    jnp.typed_add x_sample y_sample = Ok xy /\
    apply_rope x_sample position_sample _DEFAULT_BASE = Ok rx /\
    apply_rope y_sample position_sample _DEFAULT_BASE = Ok ry /\
    apply_rope xy position_sample _DEFAULT_BASE = Ok rxy /\
    jnp.typed_add rx ry = Ok rxy.
Proof.
  apply (apply_rope_additive x_sample y_sample position_sample
           _DEFAULT_BASE 1 2 2 4);
    try reflexivity; try lia.
  unfold _DEFAULT_BASE. lra.
Defined.
